(** * Line extraction for the fr. 24432 digital edition

    A shallow embedding of [helpers.py], [process_div.py] and
    [extract_divs.py]: the ElementTree data model, the node-order index,
    the markup renderer, the per-line context resolution, the metadata
    loader, the seed scan and the folio sort key.

    Python [str] values are embedded as [string]; one [ascii] stands for
    one code point below 256.  The text statements of the two modules
    are also given on sequences of arbitrary code points (module
    [Unicode]).  Python [int] counters are [nat], the sort key is a
    [Z]. *)

From Stdlib Require Import String Ascii ZArith Lia DecimalString DecimalNat
  Sorted.
From stdpp Require Import base option list gmap strings.

Local Open Scope string_scope.
Local Open Scope list_scope.
Local Open Scope nat_scope.

(** ** Python string helpers *)

Module Py.

(** [c in s] for a one-character needle. *)
Fixpoint contains (c : ascii) (s : string) : bool :=
  match s with
  | EmptyString => false
  | String a s' => if Ascii.eqb a c then true else contains c s'
  end.

(** [s.rsplit(c, 1)[-1]]: what follows the last [c], the whole of [s]
    when [c] does not occur. *)
Fixpoint rsplit1_last (c : ascii) (s : string) : string :=
  match s with
  | EmptyString => EmptyString
  | String a s' =>
      if contains c s' then rsplit1_last c s'
      else if Ascii.eqb a c then s' else s
  end.

(** Truth value of a string that may be [None]. *)
Definition truthy (o : option string) : bool :=
  match o with
  | Some (String _ _) => true
  | _ => false
  end.

(** [a or b] where [b] is a string. *)
Definition or_str (a : option string) (b : string) : string :=
  match a with
  | Some (String c s) => String c s
  | _ => b
  end.

(** [s.startswith(c)] for a one-character prefix. *)
Definition startswith (c : ascii) (s : string) : bool :=
  match s with
  | String a _ => Ascii.eqb a c
  | EmptyString => false
  end.

(** [s[1:]] *)
Definition drop1 (s : string) : string :=
  match s with
  | String _ s' => s'
  | EmptyString => EmptyString
  end.

(** [str.isspace] on one code point below 256; the class [\s] of [re]
    on [str] patterns is the same set. *)
Definition is_space (c : ascii) : bool :=
  let n := nat_of_ascii c in
  (((9 <=? n) && (n <=? 13)) || ((28 <=? n) && (n <=? 32))
   || (n =? 133) || (n =? 160))%nat.

(** [re.sub(r"\s+", " ", s)]; [in_ws] records that the previous
    character belonged to the run being replaced. *)
Fixpoint collapse_ws_from (in_ws : bool) (s : string) : string :=
  match s with
  | EmptyString => EmptyString
  | String c s' =>
      if is_space c
      then if in_ws then collapse_ws_from true s'
           else String " " (collapse_ws_from true s')
      else String c (collapse_ws_from false s')
  end.

Definition collapse_ws (s : string) : string := collapse_ws_from false s.

Fixpoint lstrip (s : string) : string :=
  match s with
  | EmptyString => EmptyString
  | String c s' => if is_space c then lstrip s' else s
  end.

Fixpoint rstrip (s : string) : string :=
  match s with
  | EmptyString => EmptyString
  | String c s' =>
      match rstrip s' with
      | EmptyString => if is_space c then EmptyString else String c EmptyString
      | r => String c r
      end
  end.

(** [s.strip()] *)
Definition strip (s : string) : string := rstrip (lstrip s).

(** ["".join(parts)] *)
Definition join (parts : list string) : string :=
  foldr String.append EmptyString parts.

(** [str.lower] on code points below 256: the ASCII capitals and the
    Latin-1 capitals other than the multiplication sign move up by 32. *)
Definition lower_char (c : ascii) : ascii :=
  let n := nat_of_ascii c in
  if (((65 <=? n) && (n <=? 90))
      || ((192 <=? n) && (n <=? 222) && negb (n =? 215)))%nat
  then ascii_of_nat (n + 32) else c.

Fixpoint lower (s : string) : string :=
  match s with
  | EmptyString => EmptyString
  | String c s' => String (lower_char c) (lower s')
  end.

(** [str(n)] for a non-negative [int]. *)
Definition str (n : nat) : string :=
  NilEmpty.string_of_uint (Nat.to_uint n).

End Py.

(** ** ElementTree elements *)

Module ET.

(** An [xml.etree.ElementTree.Element]: tag, attribute dictionary, the
    text before the first child, the tail after the end tag, and the
    children in order.  [None] is an absent text or tail. *)
#[local] Unset Elimination Schemes.
Inductive Element : Type :=
  Elem (tag : string) (attrib : gmap string string)
       (text tail : option string) (children : list Element).
#[local] Set Elimination Schemes.

Definition tag (e : Element) : string :=
  match e with Elem t _ _ _ _ => t end.
Definition attrib (e : Element) : gmap string string :=
  match e with Elem _ a _ _ _ => a end.
Definition text (e : Element) : option string :=
  match e with Elem _ _ x _ _ => x end.
Definition tail (e : Element) : option string :=
  match e with Elem _ _ _ x _ => x end.
Definition children (e : Element) : list Element :=
  match e with Elem _ _ _ _ cs => cs end.

(** [e.get(k)] *)
Definition get (e : Element) (k : string) : option string := attrib e !! k.

(** Elements are compared by object identity.  Inside one parsed
    document an element object is determined by the child positions
    leading to it from the root, so a node is that path together with
    the element found there. *)
Abbreviation path := (list nat).
Abbreviation node := (path * Element)%type.

Definition same_node (a b : node) : bool := bool_decide (a.1 = b.1).

(** [list(e.iter())] for the element [e] sitting at path [p]: preorder. *)
Fixpoint iter_at (p : path) (e : Element) : list node :=
  match e with
  | Elem _ _ _ _ cs =>
      (p, e) ::
      (fix over (i : nat) (cs : list Element) : list node :=
         match cs with
         | [] => []
         | c :: cs' => iter_at (p ++ [i]) c ++ over (S i) cs'
         end) 0 cs
  end.

(** The preorder of the children [cs] of the node at [p], the first of
    them being child number [i]. *)
Fixpoint iter_children (p : path) (i : nat) (cs : list Element) : list node :=
  match cs with
  | [] => []
  | c :: cs' => iter_at (p ++ [i]) c ++ iter_children p (S i) cs'
  end.

(** The element reached from [e] by the child positions [q]. *)
Fixpoint node_at (e : Element) (q : path) : option Element :=
  match q with
  | [] => Some e
  | i :: q' =>
      match children e !! i with
      | Some c => node_at c q'
      | None => None
      end
  end.

(** [list(root.iter())] *)
Definition iter (root : Element) : list node := iter_at [] root.

(** [ns.index(l)]; [None] stands for [ValueError]. *)
Fixpoint index (l : node) (ns : list node) : option nat :=
  match ns with
  | [] => None
  | n :: ns' => if same_node n l then Some 0 else S <$> index l ns'
  end.

(** ["".join(e.itertext())] yields the text of [e], then for every
    child its own inner text followed by its tail. *)
Fixpoint itertext (e : Element) : list string :=
  match e with
  | Elem _ _ tx _ cs =>
      (if Py.truthy tx then [default "" tx] else []) ++
      concat (map (λ c, itertext c ++
                        (if Py.truthy (tail c) then [default "" (tail c)] else []))
                  cs)
  end.

End ET.

Abbreviation Element := ET.Element.
Abbreviation node := ET.node.
Abbreviation path := ET.path.

Definition TEI_NS : string := "http://www.tei-c.org/ns/1.0".
Definition XML_ID : string := "{http://www.w3.org/XML/1998/namespace}id".

(** The expanded name that the path language gives to [tei:name]. *)
Definition tei (name : string) : string := "{" +:+ TEI_NS +:+ "}" +:+ name.

(** The local part of a tag:
    [t.rsplit('}', 1)[-1] if '}' in t else t]. *)
Definition ns_tag (t : string) : string :=
  if Py.contains "}" t then Py.rsplit1_last "}" t else t.

(** [e.findall(".//tei:name", ns)]: the proper descendants of [e] with
    that expanded name, in document order. *)
Definition findall_desc (name : string) (p : path) (e : Element) : list node :=
  filter (λ n : node, ET.tag n.2 = tei name) (ET.iter_children p 0 (ET.children e)).

(** [e.find(".//tei:name", ns)] *)
Definition find_desc (name : string) (p : path) (e : Element) : option node :=
  head (findall_desc name p e).

(** ** Markup renderer ([helpers.py]) *)

(** A text or tail as the list of parts it contributes:
    [if node.tail: text_parts.append(node.tail)]. *)
Definition part_if_any (tl : option string) : list string :=
  if Py.truthy tl then [default "" tl] else [].

Fixpoint get_text_with_markup (n : Element) : string :=
  match n with
  | ET.Elem t _ tx tl cs =>
      let tag := ns_tag t in
      let inner := Py.join (map get_text_with_markup cs) in
      Py.join
        (if String.eqb tag "ex" then
           ("<em>" +:+ Py.or_str tx "" +:+ inner +:+ "</em>") :: part_if_any tl
         else if String.eqb tag "add" || String.eqb tag "supplied" then
           ("[" +:+ Py.or_str tx "" +:+ inner +:+ "]") :: part_if_any tl
         else if String.eqb tag "del" || String.eqb tag "surplus" then
           ("(" +:+ Py.or_str tx "" +:+ inner +:+ ")") :: part_if_any tl
         else if String.eqb tag "gap" then
           " [...]" :: part_if_any tl
         else
           part_if_any tx ++ map get_text_with_markup cs ++ part_if_any tl)
  end.

(** ** Node-order index and context resolution *)

(** One output row. *)
Record LineRecord : Type := mkLine {
  line_no : nat;
  text : string;
  lg : string;
  l_id : string;
  folio : string;
  col : string;
  speaker : string
}.

Definition GROUP_TAGS : gset string := {[ "lg"; "p"; "sp" ]}.

(** [div_elem.iter()] for the first [tei:div] below the root, the whole
    document when there is none. *)
Definition doc_nodes (root : Element) : list node :=
  match find_desc "div" [] root with
  | Some d => ET.iter_at d.1 d.2
  | None => ET.iter root
  end.

(** [{c: p for p in doc_nodes for c in p}]; the key of a child is its
    identity, the path of its parent extended by its position. *)
Definition parent_map (nodes : list node) : gmap path node :=
  foldl (λ m p,
           foldl (λ m' i, <[p.1 ++ [i] := p]> m') m
                 (seq 0 (length (ET.children p.2))))
        ∅ nodes.

(** The [while cur in parent_map] loop of [find_group_for_node].  The
    outer [None] is an exhausted iteration budget; [Some None] is the
    [return None] after the loop. *)
Fixpoint find_group_loop (fuel : nat) (pm : gmap path node) (cur : path)
  : option (option node) :=
  match fuel with
  | O => None
  | S fuel' =>
      match pm !! cur with
      | None => Some None
      | Some parent =>
          if bool_decide (ns_tag (ET.tag parent.2) ∈ GROUP_TAGS)
          then Some (Some parent)
          else find_group_loop fuel' pm parent.1
      end
  end.

(** Every step moves to a strictly shorter path, so one more iteration
    than the length of the path always suffices (lemma
    [find_group_loop_enough]). *)
Definition find_group_for_node (pm : gmap path node) (n : node) : option node :=
  mjoin (find_group_loop (S (length n.1)) pm n.1).

(** The effective value of a marker with the caller's fall-back:
    [prev.get('n') or prev.get(xml_ns) or initial]. *)
Definition marker_value (prev : Element) (initial : string) : string :=
  Py.or_str (ET.get prev "n") (Py.or_str (ET.get prev XML_ID) initial).

(** [for prev in reversed(doc_nodes[:idx])] looking for a [pb]. *)
Fixpoint scan_folio (initial_folio : string) (prevs : list node) : string :=
  match prevs with
  | [] => initial_folio
  | prev :: rest =>
      if String.eqb (ns_tag (ET.tag prev.2)) "pb"
      then marker_value prev.2 initial_folio
      else scan_folio initial_folio rest
  end.

(** The same loop looking for a [cb] or a column [milestone]. *)
Fixpoint scan_col (initial_col : string) (prevs : list node) : string :=
  match prevs with
  | [] => initial_col
  | prev :: rest =>
      let prev_tag := ns_tag (ET.tag prev.2) in
      if String.eqb prev_tag "cb" then marker_value prev.2 initial_col
      else if String.eqb prev_tag "milestone"
              && bool_decide (ET.get prev.2 "unit" = Some "column")
      then marker_value prev.2 initial_col
      else scan_col initial_col rest
  end.

(** The same loop looking for an [sp]; [speaker_of] is what the module
    at hand reads off the speech element. *)
Fixpoint scan_speaker (speaker_of : Element → string) (prevs : list node)
  : string :=
  match prevs with
  | [] => ""
  | prev :: rest =>
      if String.eqb (ns_tag (ET.tag prev.2)) "sp"
      then speaker_of prev.2
      else scan_speaker speaker_of rest
  end.

(** The nodes a backward scan from [l] visits, nearest first;
    [None] when [doc_nodes.index(l)] raises. *)
Definition preceding (nodes : list node) (l : node) : option (list node) :=
  idx ← ET.index l nodes; Some (rev (take idx nodes)).

Definition folio_at (nodes : list node) (l : node) (initial_folio : string)
  : string :=
  match preceding nodes l with
  | Some prevs => scan_folio initial_folio prevs
  | None => initial_folio
  end.

Definition col_at (nodes : list node) (l : node) (initial_col : string)
  : string :=
  match preceding nodes l with
  | Some prevs => scan_col initial_col prevs
  | None => initial_col
  end.

Definition speaker_at (speaker_of : Element → string) (nodes : list node)
  (l : node) : string :=
  match preceding nodes l with
  | Some prevs => scan_speaker speaker_of prevs
  | None => ""
  end.

(** ** The extraction loop *)

(** The variables the loop over the lines updates. *)
Record loop_state : Type := mkState {
  line_counter : nat;
  ancestor_group_map : gmap path nat;
  next_group_id : nat;
  lines : list LineRecord
}.

Definition initial_state : loop_state :=
  {| line_counter := 0; ancestor_group_map := ∅; next_group_id := 0;
     lines := [] |}.

(** The group bookkeeping of one iteration: the updated map and counter
    and [lg_num]. *)
Definition assign_group (agm : gmap path nat) (ngi : nat)
  (ancestor : option node) : gmap path nat * nat * nat :=
  match ancestor with
  | Some a =>
      match agm !! a.1 with
      | None => (<[a.1 := S ngi]> agm, S ngi, S ngi)
      | Some k => (agm, ngi, k)
      end
  | None => (agm, ngi, 0)
  end.

(** [str(lg_num) if lg_num > 0 else ""] *)
Definition lg_id_of (lg_num : nat) : string :=
  if (0 <? lg_num)%nat then Py.str lg_num else "".

(** [l.get(xml_ns) or l.get("id") or ""] *)
Definition l_id_of (l : Element) : string :=
  Py.or_str (ET.get l XML_ID) (Py.or_str (ET.get l "id") "").

Section Extraction.

(** The two modules differ in how the text of a line is produced and
    in what is read off the speech element. *)
Variable line_text : Element → string.
Variable speaker_of : Element → string.

Variable nodes : list node.
Variable pm : gmap path node.
Variables initial_folio initial_col : string.

(** The body of [for l in root.findall(".//tei:l", ns)]. *)
Definition loop_body (st : loop_state) (l : node) : loop_state :=
  let counter := S (line_counter st) in
  let '(agm, ngi, lg_num) :=
    assign_group (ancestor_group_map st) (next_group_id st)
                 (find_group_for_node pm l) in
  {| line_counter := counter;
     ancestor_group_map := agm;
     next_group_id := ngi;
     lines := lines st ++
       [ {| line_no := counter;
            text := line_text l.2;
            lg := lg_id_of lg_num;
            l_id := l_id_of l.2;
            folio := folio_at nodes l initial_folio;
            col := col_at nodes l initial_col;
            speaker := speaker_at speaker_of nodes l |} ] |}.

Definition run_loop (ls : list node) : loop_state :=
  foldl loop_body initial_state ls.

End Extraction.

(** [extract_lines_from_xml] after [ET.fromstring]: [root] is the
    parsed document. *)
Definition extract_lines_with (line_text speaker_of : Element → string)
  (root : Element) (initial_folio initial_col : string) : list LineRecord :=
  let nodes := doc_nodes root in
  lines (run_loop line_text speaker_of nodes (parent_map nodes)
                  initial_folio initial_col (findall_desc "l" [] root)).

(** *** [helpers.py] *)
Module Helpers.

(** [re.sub(r"\s+", " ", get_text_with_markup(l)).strip()] *)
Definition line_text (l : Element) : string :=
  Py.strip (Py.collapse_ws (get_text_with_markup l)).

(** [prev.attrib.get('who', '')] without one leading [#]. *)
Definition speaker_of (sp : Element) : string :=
  let speaker := default "" (ET.attrib sp !! "who") in
  if Py.startswith "#" speaker then Py.drop1 speaker else speaker.

Definition extract_lines_from_xml :=
  extract_lines_with line_text speaker_of.

End Helpers.

(** *** [process_div.py] *)
Module ProcessDiv.

(** The code points of the two characters around which white space is
    removed: the typographic apostrophe U+2019 and the apostrophe. *)
Definition TYPOGRAPHIC_APOSTROPHE : N := 8217.
Definition APOSTROPHE : N := 39.

(** [re.sub(r"\s*q\s*", "q", s)] for the character with code point
    [q]: [pending] is the white space read since the last character
    that was kept, [after] tells that the character was just replaced
    and white space is still consumed. *)
Fixpoint sub_around (q : N) (pending : string) (after : bool) (s : string)
  : string :=
  match s with
  | EmptyString => pending
  | String c s' =>
      if (N_of_ascii c =? q)%N then String c (sub_around q "" true s')
      else if Py.is_space c then
        if after then sub_around q "" true s'
        else sub_around q (pending +:+ String c "") false s'
      else pending +:+ String c (sub_around q "" false s')
  end.

(** The text of a line: the four statements that follow the loop
    header.  The texts of the elements hold code points below 256, so
    on them the first substitution finds nothing to replace (lemma
    [sub_around_absent]); [Unicode.process_div_text] is the same
    pipeline on strings of arbitrary code points. *)
Definition line_text (l : Element) : string :=
  let text := Py.join (ET.itertext l) in
  let text := Py.strip (Py.collapse_ws text) in
  let text := sub_around TYPOGRAPHIC_APOSTROPHE "" false text in
  let text := sub_around APOSTROPHE "" false text in
  text.

(** [prev.find('tei:speaker', ns)]: the first child with that name. *)
Definition find_speaker_child (sp : Element) : option Element :=
  head (filter (λ c, ET.tag c = tei "speaker") (ET.children sp)).

Definition speaker_of (sp : Element) : string :=
  match find_speaker_child sp with
  | Some speaker_elem => Py.strip (Py.join (ET.itertext speaker_elem))
  | None => ""
  end.

Definition extract_lines_from_xml :=
  extract_lines_with line_text speaker_of.

End ProcessDiv.

(** *** Texts of arbitrary code points *)

(** A Python [str] is a sequence of code points of any size.  The
    text statements of the two modules are given here on such
    sequences; on the code points of a [string] they compute what the
    functions above compute (lemmas [helpers_text_code_points] and
    [process_div_text_code_points]). *)
Module Unicode.

(** [str.isspace] on one code point; the class [\s] of [re] and
    [str.strip] use the same set. *)
Definition is_space (n : N) : bool :=
  (((9 <=? n) && (n <=? 13)) || ((28 <=? n) && (n <=? 32))
   || (n =? 133) || (n =? 160) || (n =? 5760)
   || ((8192 <=? n) && (n <=? 8202)) || (n =? 8232) || (n =? 8233)
   || (n =? 8239) || (n =? 8287) || (n =? 12288))%N.

(** [re.sub(r"\s+", " ", s)] *)
Fixpoint collapse_ws_from (in_ws : bool) (s : list N) : list N :=
  match s with
  | [] => []
  | c :: s' =>
      if is_space c
      then if in_ws then collapse_ws_from true s'
           else 32%N :: collapse_ws_from true s'
      else c :: collapse_ws_from false s'
  end.

Definition collapse_ws (s : list N) : list N := collapse_ws_from false s.

Fixpoint lstrip (s : list N) : list N :=
  match s with
  | [] => []
  | c :: s' => if is_space c then lstrip s' else s
  end.

Fixpoint rstrip (s : list N) : list N :=
  match s with
  | [] => []
  | c :: s' =>
      match rstrip s' with
      | [] => if is_space c then [] else [c]
      | r => c :: r
      end
  end.

(** [s.strip()] *)
Definition strip (s : list N) : list N := rstrip (lstrip s).

(** [re.sub(r"\s*q\s*", "q", s)] for the character with code point
    [q]. *)
Fixpoint sub_around (q : N) (pending : list N) (after : bool) (s : list N)
  : list N :=
  match s with
  | [] => pending
  | c :: s' =>
      if (c =? q)%N then c :: sub_around q [] true s'
      else if is_space c then
        if after then sub_around q [] true s'
        else sub_around q (pending ++ [c]) false s'
      else pending ++ c :: sub_around q [] false s'
  end.


(** [process_div.py]: the stored text, from the joined text nodes of
    the line. *)
Definition process_div_text (joined : list N) : list N :=
  let text := strip (collapse_ws joined) in
  let text := sub_around ProcessDiv.TYPOGRAPHIC_APOSTROPHE [] false text in
  let text := sub_around ProcessDiv.APOSTROPHE [] false text in
  text.

End Unicode.

(** The code points of a [string]. *)
Fixpoint code_points (s : string) : list N :=
  match s with
  | EmptyString => []
  | String c s' => N_of_ascii c :: code_points s'
  end.

(** ** Structural induction on elements *)

Section ElementInduction.
Variable P : Element → Prop.
Hypothesis step : ∀ t a tx tl cs, Forall P cs → P (ET.Elem t a tx tl cs).

Fixpoint Element_ind (e : Element) : P e :=
  match e with
  | ET.Elem t a tx tl cs =>
      step t a tx tl cs
        ((fix all (cs : list Element) : Forall P cs :=
            match cs with
            | [] => Forall_nil_2 P
            | c :: cs' => Forall_cons_2 P c cs' (Element_ind c) (all cs')
            end) cs)
  end.
End ElementInduction.

(** ** Counting elements *)

(** The number of elements tagged [t] in the tree [e], [e] included. *)
Fixpoint count_tag (t : string) (e : Element) : nat :=
  match e with
  | ET.Elem t' _ _ _ cs =>
      (if bool_decide (t' = t) then 1 else 0) + sum_list (map (count_tag t) cs)
  end.

(** The number of elements tagged [t] strictly below [e]. *)
Definition count_below (t : string) (e : Element) : nat :=
  sum_list (map (count_tag t) (ET.children e)).

(** ** Group numbering in first-discovery order *)

(** The grouping containers in the order in which a pass over the
    lines meets them for the first time; [ancs] lists, line by line,
    the container found for the line. *)
Fixpoint discover (seen : list path) (ancs : list (option node)) : list path :=
  match ancs with
  | [] => seen
  | None :: rest => discover seen rest
  | Some a :: rest =>
      discover (if bool_decide (a.1 ∈ seen) then seen else seen ++ [a.1]) rest
  end.

(** ** Seed extraction ([extract_divs.py], [helpers.py]) *)

Definition dquote : ascii := ascii_of_nat 34.

(** [s] without the prefix [pre], when it has it. *)
Fixpoint strip_prefix (pre s : string) : option string :=
  match pre, s with
  | EmptyString, _ => Some s
  | String a pre', String b s' =>
      if Ascii.eqb a b then strip_prefix pre' s' else None
  | String _ _, EmptyString => None
  end.

(** The longest run of characters other than the double quote at the
    head of [s], and what follows it. *)
Fixpoint span_not_quote (s : string) : string * string :=
  match s with
  | EmptyString => (EmptyString, EmptyString)
  | String c s' =>
      if Ascii.eqb c dquote then (EmptyString, s)
      else let '(g, rest) := span_not_quote s' in (String c g, rest)
  end.

(** The pattern of [re.search] matched at the head of [s]: the text
    [xml:id], white space, an equals sign, white space, a double quote,
    one or more characters other than the double quote (group 1, which
    is returned), a double quote. *)
Definition match_xml_id_here (s : string) : option string :=
  s1 ← strip_prefix "xml:id" s;
  match Py.lstrip s1 with
  | String c2 s2 =>
      if Ascii.eqb c2 "=" then
        match Py.lstrip s2 with
        | String c3 s3 =>
            if Ascii.eqb c3 dquote then
              match span_not_quote s3 with
              | (String g0 g, String _ _) => Some (String g0 g)
              | _ => None
              end
            else None
        | EmptyString => None
        end
      else None
  | EmptyString => None
  end.

(** [re.search] of that pattern: the leftmost match. *)
Fixpoint search_xml_id (s : string) : option string :=
  match match_xml_id_here s with
  | Some g => Some g
  | None =>
      match s with
      | EmptyString => None
      | String _ s' => search_xml_id s'
      end
  end.

Definition is_page_break (e : Element) : bool :=
  String.eqb (ET.tag e) (tei "pb").

Definition is_column_marker (e : Element) : bool :=
  String.eqb (ET.tag e) (tei "cb")
  || (String.eqb (ET.tag e) (tei "milestone")
      && bool_decide (ET.get e "unit" = Some "column")).

(** The effective value of a marker:
    [prev_node.get('n') or prev_node.get(XML_ID_NS) or ""]. *)
Definition effective_value (e : Element) : string := marker_value e "".

(** The loop [for prev_node in reversed(all_nodes[:div_idx])] with its
    two variables. *)
Fixpoint joint_scan (prevs : list node) (folio col : string) : string * string :=
  match prevs with
  | [] => (folio, col)
  | prev_node :: rest =>
      let folio :=
        if is_page_break prev_node.2 && negb (Py.truthy (Some folio))
        then effective_value prev_node.2 else folio in
      let col :=
        if negb (Py.truthy (Some col)) then
          if String.eqb (ET.tag prev_node.2) (tei "cb")
          then effective_value prev_node.2
          else if String.eqb (ET.tag prev_node.2) (tei "milestone")
                  && bool_decide (ET.get prev_node.2 "unit" = Some "column")
          then effective_value prev_node.2
          else col
        else col in
      if Py.truthy (Some folio) && Py.truthy (Some col) then (folio, col)
      else joint_scan rest folio col
  end.

(** The first [tei:div] of the source whose [xml:id] is [div_id]. *)
Definition find_div_in_source (div_id : string) (source_root : Element)
  : option node :=
  head (filter (λ n : node, ET.tag n.2 = tei "div"
                            ∧ ET.get n.2 XML_ID = Some div_id)
               (ET.iter source_root)).

(** What is common to the seed extraction and to the variants it is
    compared with: locate the section, list what precedes it nearest
    first, and hand that to [scan]. *)
Definition at_div (scan : list node → string * string)
  (div_node_xml : string) (source_root : Element) : string * string :=
  match search_xml_id div_node_xml with
  | None => ("", "")
  | Some div_id =>
      match find_div_in_source div_id source_root with
      | None => ("", "")
      | Some div_elem_in_source =>
          let all_nodes := ET.iter source_root in
          match ET.index div_elem_in_source all_nodes with
          | None => ("", "")
          | Some div_idx => scan (rev (take div_idx all_nodes))
          end
      end
  end.

Definition get_folio_and_col_at_div : string → Element → string * string :=
  at_div (λ prevs, joint_scan prevs "" "").

(** A backward scan that stops at its first marker and returns the
    effective value found there. *)
Fixpoint first_match_value (is_marker : Element → bool) (prevs : list node)
  : string :=
  match prevs with
  | [] => ""
  | prev :: rest =>
      if is_marker prev.2 then effective_value prev.2
      else first_match_value is_marker rest
  end.

(** A backward scan that stops at its first marker with a non-empty
    effective value. *)
Fixpoint first_nonempty_value (is_marker : Element → bool) (prevs : list node)
  : string :=
  match prevs with
  | [] => ""
  | prev :: rest =>
      if is_marker prev.2 && Py.truthy (Some (effective_value prev.2))
      then effective_value prev.2
      else first_nonempty_value is_marker rest
  end.

(** Two independent scans, each stopping at its own first match. *)
Definition independent_first_match : string → Element → string * string :=
  at_div (λ prevs, (first_match_value is_page_break prevs,
                    first_match_value is_column_marker prevs)).

(** Two independent scans, each stopping at its own first marker with
    a non-empty effective value. *)
Definition independent_first_nonempty : string → Element → string * string :=
  at_div (λ prevs, (first_nonempty_value is_page_break prevs,
                    first_nonempty_value is_column_marker prevs)).

(** ** The folio sort key ([helpers.py], [processor.py]) *)

Local Open Scope Z_scope.

Definition is_digit (c : ascii) : bool :=
  let n := nat_of_ascii c in ((48 <=? n) && (n <=? 57))%nat.

(** The longest run of digits at the head of [s]. *)
Fixpoint leading_digits (s : string) : string :=
  match s with
  | EmptyString => EmptyString
  | String c s' => if is_digit c then String c (leading_digits s') else EmptyString
  end.

(** [re.match(r'(\d+)', s)]: group 1 of a match anchored at the start. *)
Definition re_match_digits (s : string) : option string :=
  match leading_digits s with
  | EmptyString => None
  | g => Some g
  end.

Definition digit_value (c : ascii) : Z := Z.of_nat (nat_of_ascii c) - 48.

(** [int(g)] for a string of decimal digits. *)
Definition int (g : string) : Z :=
  fold_left (λ acc c, 10 * acc + digit_value c) (list_ascii_of_string g) 0.

Definition simple_folio_sort_key (fol_range : option string) : Z :=
  if negb (Py.truthy fol_range) then 999999
  else match re_match_digits (default EmptyString fol_range) with
       | Some g => int g
       | None => 999999
       end.

(** The first run of digits anywhere in [s]. *)
Fixpoint first_integer_substring (s : string) : option string :=
  match s with
  | EmptyString => None
  | String c s' =>
      if is_digit c then Some (leading_digits s)
      else first_integer_substring s'
  end.

(** The key in the words of the documentation: the integer value of
    the first number found, a large number when there is none. *)
Definition first_integer_key (fol_range : option string) : Z :=
  match first_integer_substring (default EmptyString fol_range) with
  | Some g => int g
  | None => 999999
  end.

(** [items.sort(key=...)]: the stable sort by key, as an insertion sort
    that keeps the earlier of two items with equal keys first. *)
Fixpoint insert_by {A} (key : A → Z) (x : A) (l : list A) : list A :=
  match l with
  | [] => [x]
  | y :: l' => if key x <=? key y then x :: l else y :: insert_by key x l'
  end.

Definition sort_by {A} (key : A → Z) (l : list A) : list A :=
  foldr (insert_by key) [] l.

(** The order of one state group of the index, items reduced to their
    [fol_range] field. *)
Definition sort_group (fol_ranges : list (option string)) : list (option string) :=
  sort_by simple_folio_sort_key fol_ranges.

Local Close Scope Z_scope.

(** ** Metadata loading ([helpers.py], [processor.py]) *)

(** The exceptions that loading can raise. *)
Inductive exn : Type :=
  | FileNotFoundError
  | NameError
  | AttributeError
  | TypeError.

Definition exn_message (e : exn) : string :=
  match e with
  | FileNotFoundError => "No such file or directory"
  | NameError => "name 'sys' is not defined"
  | AttributeError => "'NoneType' object has no attribute 'strip'"
  | TypeError => "'NoneType' object is not iterable"
  end.

(** [helpers.py] never imports [sys]: evaluating [sys.exit(1)] there
    fails at the name [sys] and no [SystemExit] is ever raised. *)
Definition sys_exit_in_helpers : exn := NameError.

(** A row as [csv.DictReader] yields it: the cells by column name,
    [None] for a column the row is too short for, and under the key
    [None] the cells beyond the header, if any. *)
Record Row : Type := mkRow {
  cells : gmap string (option string);
  rest : option (list string)
}.

(** [DictReader.__next__] on one non-empty row. *)
Definition dict_row (fieldnames row : list string) : Row :=
  let d := foldl (λ m kv, <[kv.1 := Some kv.2]> m) ∅ (zip fieldnames row) in
  let lf := length fieldnames in
  let lr := length row in
  {| cells := if lf <? lr then d
              else foldl (λ m key, <[key := None]> m) d (drop lr fieldnames);
     rest := if lf <? lr then Some (drop lf row) else None |}.

(** [row['state'] = ...] *)
Definition set_state (state : string) (row : Row) : Row :=
  {| cells := <["state" := Some state]> (cells row); rest := rest row |}.

Definition warning (i : nat) : string :=
  "Warning: Skipping row " +:+ Py.str i +:+ " because 'id' column is empty.".

(** The body of [for i, row in enumerate(reader, 1)] on one row of the
    reader; [inr] is an exception leaving the loop. *)
Definition load_row (i : nat) (row : Row)
  (metadata : gmap string Row) (log : list string)
  : (gmap string Row * list string) + exn :=
  match default (Some EmptyString) (cells row !! "id") with
  | None => inr AttributeError
  | Some id =>
      if Py.truthy (Some (Py.strip id)) then
        let div_id := Py.strip id in
        match default (Some "incomplete") (cells row !! "state") with
        | None => inr AttributeError
        | Some state =>
            inl (<[div_id := set_state (Py.lower (Py.strip state)) row]> metadata,
                 log)
        end
      else inl (metadata, log ++ [warning i])
  end.

(** The loop over the reader.  The reader passes over empty rows
    without numbering them. *)
Fixpoint load_rows (fieldnames : list string) (i : nat)
  (rows : list (list string)) (metadata : gmap string Row) (log : list string)
  : list string * (gmap string Row + exn) :=
  match rows with
  | [] => (log, inl metadata)
  | [] :: rows' => load_rows fieldnames i rows' metadata log
  | row :: rows' =>
      match load_row i (dict_row fieldnames row) metadata log with
      | inl (metadata', log') => load_rows fieldnames (S i) rows' metadata' log'
      | inr e => (log, inr e)
      end
  end.

(** The body of the [try].  [file] is [None] when the file does not
    exist, otherwise the rows that [csv.reader] produces. *)
Definition load_metadata_try (file : option (list (list string)))
  : list string * (gmap string Row + exn) :=
  match file with
  | None => ([], inr FileNotFoundError)
  | Some [] => ([], inr TypeError)
  | Some (header :: rows) =>
      let fieldnames := Py.strip <$> header in
      if bool_decide ("id" ∈ fieldnames)
      then load_rows fieldnames 1 rows ∅ []
      else (["Error: CSV header 'id' not found. Found headers: "
             +:+ String.concat ", " fieldnames],
            inr sys_exit_in_helpers)
  end.

(** How a call ends: with a value, or with an exception that nothing
    in the callee caught. *)
Inductive outcome (A : Type) : Type :=
  | Returned (a : A)
  | Raised (e : exn).
Arguments Returned {A} a.
Arguments Raised {A} e.

(** [load_metadata]: what was printed, and how the call ended. *)
Definition load_metadata (meta_file_path : string)
  (file : option (list (list string)))
  : list string * outcome (gmap string Row) :=
  match load_metadata_try file with
  | (log, inl metadata) => (log, Returned metadata)
  | (log, inr FileNotFoundError) =>
      (log ++ ["Error: Metadata file not found at " +:+ meta_file_path],
       Raised sys_exit_in_helpers)
  | (log, inr e) =>
      (log ++ ["Error reading metadata file: " +:+ exn_message e],
       Raised sys_exit_in_helpers)
  end.

(** The rows the reader yields, in order: row [k] of this list is
    numbered [k + 1] by [enumerate]. *)
Definition reader_rows (file : list (list string)) : list Row :=
  match file with
  | [] => []
  | header :: rows =>
      dict_row (Py.strip <$> header)
        <$> filter (λ row : list string, row ≠ []) rows
  end.

(** The identifier cell of a row, stripped; empty when there is none. *)
Definition row_id (row : Row) : string :=
  match cells row !! "id" with
  | Some (Some id) => Py.strip id
  | _ => EmptyString
  end.

Section Processor.

(** Everything [processor.py] does once the metadata is loaded and
    not empty: the identifiers of the sections it processes and the
    exit status. *)
Variable process_sections : gmap string Row → list string * Z.

(** A run of [processor.py]: the sections processed and the exit
    status.  An exception that reaches the top level ends the
    interpreter with status 1. *)
Definition processor_run (meta_file : string)
  (file : option (list (list string))) : list string * Z :=
  match load_metadata meta_file file with
  | (_, Raised _) => ([], 1%Z)
  | (_, Returned metadata_dict) =>
      if bool_decide (metadata_dict = ∅) then ([], 1%Z)
      else process_sections metadata_dict
  end.

End Processor.

(** ** Notions used in the statements *)

(** The two extraction functions of the repository. *)
Definition extractors : list (Element → string → string → list LineRecord) :=
  [ Helpers.extract_lines_from_xml; ProcessDiv.extract_lines_from_xml ].


(** The line elements that the loop of an extraction visits. *)
Definition line_elements (root : Element) : list node :=
  findall_desc "l" [] root.

Definition is_line (e : Element) : Prop := ET.tag e = tei "l".
Definition is_pb (e : Element) : Prop := ns_tag (ET.tag e) = "pb".
(** A verse group, a paragraph or a speech. *)
Definition is_group (e : Element) : Prop :=
  ns_tag (ET.tag e) = "lg" ∨ ns_tag (ET.tag e) = "p"
  ∨ ns_tag (ET.tag e) = "sp".

(** [a] is a proper ancestor of [l]: its path is a strict prefix. *)
Definition proper_ancestor (a l : node) : Prop :=
  ∃ q, q ≠ [] ∧ l.1 = a.1 ++ q.

(** The element the node-order index is built from: the first
    section element below the root of the fragment, the root itself
    when there is none. *)
Definition index_root (root : Element) : node :=
  default ([], root) (find_desc "div" [] root).

(** [a] is a grouping container above the line [l] inside the index:
    an element of the fragment that sits at or below [index_root], is
    tagged lg, p or sp, and lies strictly above [l]. *)
Definition group_above (root : Element) (a l : node) : Prop :=
  a ∈ ET.iter root ∧ (index_root root).1 `prefix_of` a.1
  ∧ is_group a.2 ∧ proper_ancestor a l.

(** [a] is the container of [l]: the nearest of them. *)
Definition container_of (root : Element) (l a : node) : Prop :=
  group_above root a l ∧ ∀ b, group_above root b l → b.1 `prefix_of` a.1.


(** One record per line element below the root, numbered from 1 in
    document order, each with the identifier and the text of its line. *)
Definition records_follow_lines (line_text : Element → string)
  (root : Element) (rs : list LineRecord) : Prop :=
  length rs = count_below (tei "l") root
  ∧ line_no <$> rs = seq 1 (length rs)
  ∧ ∀ k l, line_elements root !! k = Some l →
      ∃ r, rs !! k = Some r ∧ line_no r = S k
           ∧ l_id r = l_id_of l.2 ∧ text r = line_text l.2.

(** What the group field of a record has to be, given the discovery
    order of the containers and the container of its line. *)
Definition group_id_matches (order : list path) (ancestor : option node)
  (lg_id : string) : Prop :=
  match ancestor with
  | None => lg_id = ""
  | Some a => ∃ i, order !! i = Some a.1 ∧ lg_id = Py.str (S i)
  end.

(** The numbering is in step with the containers seen so far: they are
    numbered by their rank in [seen]. *)
Definition numbered (st : loop_state) (seen : list path) : Prop :=
  next_group_id st = length seen
  ∧ ∀ p n, ancestor_group_map st !! p = Some n
           ↔ ∃ i, n = S i ∧ seen !! i = Some p.

(** What loading leaves behind for the rows [rows], the first of them
    numbered [first], on top of the mapping [md0]. *)
Definition rows_loaded (rows : list Row) (first : nat) (log : list string)
  (md0 md : gmap string Row) : Prop :=
  (∀ k row, rows !! k = Some row →
     (row_id row = "" → warning (first + k) ∈ log)
     ∧ (row_id row ≠ "" → is_Some (md !! row_id row)))
  ∧ (∀ key v, md !! key = Some v →
       md0 !! key = Some v
       ∨ (key ≠ "" ∧ row_id v = key
          ∧ ∃ k row state, rows !! k = Some row ∧ row_id row = key
                           ∧ v = set_state state row)).

(** ** Concrete documents *)

(** An element without tail, its attributes given as a list. *)
Definition elem (t : string) (a : list (string * string))
  (tx : option string) (cs : list Element) : Element :=
  ET.Elem t (list_to_map a) tx None cs.

(** The scenario document with every element in the TEI namespace. *)
Definition scenario_tei : Element :=
  elem (tei "div") [] None
    [ elem (tei "pb") [("n", "1r")] None [];
      elem (tei "lg") [] None
        [ elem (tei "l") [(XML_ID, "l1")] (Some "Foo") [];
          elem (tei "l") [(XML_ID, "l2")] (Some "Bar") [] ] ].

(** What [ET.fromstring] builds from the scenario text as it is
    written, without a namespace declaration. *)
Definition scenario_plain : Element :=
  elem "div" [] None
    [ elem "pb" [("n", "1r")] None [];
      elem "lg" [] None
        [ elem "l" [(XML_ID, "l1")] (Some "Foo") [];
          elem "l" [(XML_ID, "l2")] (Some "Bar") [] ] ].

(** The records of the scenario. *)
Definition scenario_records : list LineRecord :=
  [ {| line_no := 1; text := "Foo"; lg := "1"; l_id := "l1";
       folio := "1r"; col := ""; speaker := "" |};
    {| line_no := 2; text := "Bar"; lg := "1"; l_id := "l2";
       folio := "1r"; col := ""; speaker := "" |} ].

(** A document that is a single line element. *)
Definition lone_line_doc : Element :=
  elem (tei "l") [] (Some "Foo") [].

(** A page break without attributes before one line. *)
Definition bare_pb : Element := elem (tei "pb") [] None [].
Definition line_x : Element := elem (tei "l") [] (Some "x") [].
Definition bare_pb_doc : Element :=
  elem (tei "div") [] None [ bare_pb; line_x ].

(** A page break numbered 12 followed by three lines. *)
Definition pb12 : Element := elem (tei "pb") [("n", "12")] None [].
Definition line_a : Element := elem (tei "l") [] (Some "a") [].
Definition line_b : Element := elem (tei "l") [] (Some "b") [].
Definition line_c : Element := elem (tei "l") [] (Some "c") [].
Definition three_lines_doc : Element :=
  elem (tei "div") [] None [ pb12; line_a; line_b; line_c ].

(** A page break that precedes the section the index is built from. *)
Definition section_x : Element := elem (tei "div") [] None [ line_x ].
Definition pb_before_div_doc : Element :=
  elem (tei "TEI") [] None [ pb12; section_x ].

(** A gap with text and a child, and an expansion, both without tail. *)
Definition gap_with_content : Element :=
  elem (tei "gap") [] (Some "lost") [ elem (tei "ex") [] (Some "q") [] ].

Definition expansion_abc : Element :=
  elem (tei "ex") [] (Some "abc") [].

(** A gap followed by the text b. *)
Definition gap_with_tail : Element :=
  ET.Elem (tei "gap") ∅ None (Some "b") [].

(** A speech whose speaker is given by attribute only. *)
Definition speech_A : Element :=
  elem (tei "sp") [("who", "#A")] None [ line_x ].
Definition speech_doc : Element :=
  elem (tei "div") [] None [ speech_A ].

(** A line under no container, then a verse group holding a line, a
    paragraph with a line inside a nested element, and a further line
    of the verse group. *)
Definition grouped_doc : Element :=
  elem (tei "div") [] None
    [ elem (tei "l") [] (Some "z") [];
      elem (tei "lg") [] None
        [ elem (tei "l") [] (Some "a") [];
          elem (tei "p") [] None
            [ elem (tei "seg") [] None [ elem (tei "l") [] (Some "c") [] ] ];
          elem (tei "l") [] (Some "d") [] ] ].

(** A verse group that precedes the section the index is built from,
    and a verse group inside that section, each holding one line. *)
Definition line_pre : Element := elem (tei "l") [] (Some "pre") [].
Definition line_in : Element := elem (tei "l") [] (Some "in") [].
Definition group_pre : Element := elem (tei "lg") [] None [ line_pre ].
Definition group_in : Element := elem (tei "lg") [] None [ line_in ].
Definition group_before_div_doc : Element :=
  elem (tei "TEI") [] None
    [ group_pre; elem (tei "div") [] None [ group_in ] ].

(** A source in which the page break nearest to the section has no
    attributes and an earlier one is numbered, and the serialized
    section. *)
Definition two_pb_source : Element :=
  elem (tei "TEI") [] None
    [ elem (tei "pb") [("n", "1")] None [];
      elem (tei "pb") [] None [];
      elem (tei "div") [(XML_ID, "d1")] None [] ].

Definition d1_xml : string :=
  "<div xml:id=" +:+ String dquote ("d1" +:+ String dquote "/>").


(** * Further code of the repository *)

(** ** Normalized text *)

(** Every white-space character of [s] is a single space that follows
    a character other than white space; [prev_ws] tells that the
    character before [s] is white space or that [s] starts the text. *)
Fixpoint single_spaced (prev_ws : bool) (s : string) : bool :=
  match s with
  | EmptyString => true
  | String c s' =>
      if Py.is_space c
      then Ascii.eqb c " " && negb prev_ws && single_spaced true s'
      else single_spaced false s'
  end.

Fixpoint ends_with_space (s : string) : bool :=
  match s with
  | EmptyString => false
  | String c EmptyString => Py.is_space c
  | String _ s' => ends_with_space s'
  end.

(** No white space at either end, and inside only single spaces. *)
Definition is_normalized (s : string) : bool :=
  single_spaced true s && negb (ends_with_space s).

(** [re.sub(r"\s+", " ", s).strip()], the normalization both modules
    apply to the text of a line. *)
Definition normalize_ws (s : string) : string := Py.strip (Py.collapse_ws s).

(** ** Elements without editorial markup *)

Definition MARKUP_TAGS : list string :=
  ["ex"; "add"; "supplied"; "del"; "surplus"; "gap"].

(** No element of the tree carries one of the tags the renderer
    rewrites. *)
Fixpoint markup_free (e : Element) : bool :=
  match e with
  | ET.Elem t _ _ _ cs =>
      negb (bool_decide (ns_tag t ∈ MARKUP_TAGS)) && forallb markup_free cs
  end.

(** ** Column markers *)

(** The test of the column scan of [extract_lines_from_xml]: a [cb], or
    a [milestone] whose unit is the column. *)
Definition is_col_marker (e : Element) : bool :=
  String.eqb (ns_tag (ET.tag e)) "cb"
  || (String.eqb (ns_tag (ET.tag e)) "milestone"
      && bool_decide (ET.get e "unit" = Some "column")).

(** A column break inside a line group, then two lines; and a
    milestone of another unit before a line. *)
Definition cb_b : Element := elem (tei "cb") [("n", "b")] None [].
Definition column_doc : Element :=
  elem (tei "div") [] None [ cb_b; line_a; line_b ].
Definition page_milestone : Element :=
  elem (tei "milestone") [("unit", "page"); ("n", "9")] None [].
Definition milestone_doc : Element :=
  elem (tei "div") [] None [ page_milestone; line_x ].

(** A line with nested plain elements and tails. *)
Definition plain_line : Element :=
  elem (tei "l") [] (Some "Li ")
    [ ET.Elem (tei "hi") ∅ (Some "rois") (Some "  dit")
        [ ET.Elem (tei "seg") ∅ None (Some "!") [] ] ].

(** ** Order of the index *)

(** [s] starts with a digit. *)
Definition starts_with_digit (s : string) : bool :=
  match s with
  | String c _ => is_digit c
  | EmptyString => false
  end.

(** The order that sorting by [key] establishes. *)
Definition key_le {A} (key : A → Z) (a b : A) : Prop := (key a ≤ key b)%Z.

(** ** The page break carried into a standalone section *)

(** What [get_folio_and_col_at_div] and [get_preceding_pb_element] do
    before they scan: find the identifier in the serialized section,
    find the section in the source and list the nodes before it,
    nearest first.  [None] stands for each of their early returns. *)
Definition nodes_before_div (div_node_xml : string) (source_root : Element)
  : option (list node) :=
  div_id ← search_xml_id div_node_xml;
  div_elem_in_source ← find_div_in_source div_id source_root;
  div_idx ← ET.index div_elem_in_source (ET.iter source_root);
  Some (rev (take div_idx (ET.iter source_root))).

(** The loop of [get_preceding_pb_element]. *)
Fixpoint first_page_break (prevs : list node) : option node :=
  match prevs with
  | [] => None
  | prev_node :: rest =>
      if is_page_break prev_node.2 then Some prev_node
      else first_page_break rest
  end.

Definition get_preceding_pb_element (div_node_xml : string)
  (source_root : Element) : option node :=
  match search_xml_id div_node_xml with
  | None => None
  | Some div_id =>
      match find_div_in_source div_id source_root with
      | None => None
      | Some div_elem_in_source =>
          let all_nodes := ET.iter source_root in
          match ET.index div_elem_in_source all_nodes with
          | None => None
          | Some div_idx => first_page_break (rev (take div_idx all_nodes))
          end
      end
  end.

(** The text [xml:id] begins at some position of [pre] when [pre] is
    followed by that text. *)
Fixpoint xml_id_begins_in (pre : string) : bool :=
  match pre with
  | EmptyString => false
  | String _ pre' =>
      bool_decide (is_Some (strip_prefix "xml:id" (pre +:+ "xml:id")))
      || xml_id_begins_in pre'
  end.

(** The attribute [xml:id] with the value [v], as it is serialized. *)
Definition xml_id_attribute (v : string) : string :=
  "xml:id=" +:+ String dquote (v +:+ String dquote "").

Definition div_start_tei : string :=
  "<div xmlns=" +:+ String dquote (TEI_NS +:+ String dquote " ").

(** ** States of sections ([helpers.py], [processor.py]) *)

(** The state [load_metadata] stores for a row:
    [row.get('state', 'incomplete').strip().lower()]. *)
Definition stored_state (row : Row) : string :=
  Py.lower (Py.strip (match cells row !! "state" with
                      | Some (Some state) => state
                      | _ => "incomplete"
                      end)).

(** A cell that [DictReader] filled with [None] because the row is too
    short makes the loop body fail: the identifier cell always, the
    state cell when the identifier is not blank. *)
Definition row_fails (row : Row) : Prop :=
  cells row !! "id" = Some None
  ∨ (row_id row ≠ "" ∧ cells row !! "state" = Some None).

Definition ALLOWED_HTML_STATES : list string := ["complete"; "near-complete"].

(** [s.replace(' ', '-')] *)
Fixpoint replace_space (s : string) : string :=
  match s with
  | EmptyString => EmptyString
  | String c s' =>
      String (if Ascii.eqb c " " then "-"%char else c) (replace_space s')
  end.

(** [metadata_dict.get(div_id, {}).get('state', 'incomplete').lower()];
    [None] stands for the [AttributeError] of a state that is [None]. *)
Definition div_state_of (metadata_dict : gmap string Row) (div_id : string)
  : option string :=
  match metadata_dict !! div_id with
  | None => Some (Py.lower "incomplete")
  | Some row =>
      match cells row !! "state" with
      | None => Some (Py.lower "incomplete")
      | Some None => None
      | Some (Some state) => Some (Py.lower state)
      end
  end.

(** [process_div]: [norm_div_state in ALLOWED_HTML_STATES], where
    [norm_div_state = div_state.replace(' ', '-')]. *)
Definition generate_html (div_state : string) : bool :=
  bool_decide (replace_space div_state ∈ ALLOWED_HTML_STATES).

(** The index of [processor.py]: [div_state in ALLOWED_HTML_STATES]. *)
Definition include_html (div_state : string) : bool :=
  bool_decide (div_state ∈ ALLOWED_HTML_STATES).

(** The group of the index an item is appended to. *)
Definition group_of (div_state : string) : string :=
  if String.eqb div_state "near-complete" then "near-complete"
  else if String.eqb div_state "complete" then "complete"
  else "incomplete".

(** A table whose last row stops before the state column, and one with
    two rows for the same identifier. *)
Definition short_row_table : list (list string) :=
  [ ["id"; "state"]; ["a"; "complete"]; ["b"] ].
Definition duplicate_id_table : list (list string) :=
  [ ["id"; "state"]; ["a"; "Incomplete"]; ["a"; " Near-Complete "] ].

(** ** Canvas of the first folio ([process_div]) *)

(** What a page break contributes to [folio_to_canvas]:
    [pb_n = pb.get("n") or pb.get(xml_id) or ""], [pb_facs =
    pb.get("facs") or ""], and an entry [if pb_n and pb_facs]. *)
Definition canvas_entry (pb : Element) : option (string * string) :=
  let pb_n := effective_value pb in
  let pb_facs := Py.or_str (ET.get pb "facs") "" in
  if Py.truthy (Some pb_n) && Py.truthy (Some pb_facs)
  then Some (pb_n, pb_facs) else None.

(** The loop over [tei_root.findall(".//tei:pb", ns)]. *)
Definition folio_to_canvas (tei_root : Element) : gmap string string :=
  foldl (λ m pb, match canvas_entry pb.2 with
                 | Some (pb_n, pb_facs) => <[pb_n := pb_facs]> m
                 | None => m
                 end)
        ∅ (findall_desc "pb" [] tei_root).

(** [canvas_url]: the canvas of the folio of the first line. *)
Definition canvas_url (lines : list LineRecord)
  (folio_to_canvas : gmap string string) : option string :=
  match lines with
  | [] => None
  | first :: _ =>
      if Py.truthy (Some (folio first)) then folio_to_canvas !! folio first
      else None
  end.

(** A standalone section with two page breaks of the same number. *)
Definition pb_facs (n facs : string) : Element :=
  elem (tei "pb") [("n", n); ("facs", facs)] None [].
Definition canvas_doc : Element :=
  elem (tei "TEI") [] None
    [ pb_facs "1r" "c1"; elem (tei "div") [] None [ pb_facs "1r" "c2"; line_x ] ].

(** ** Text and table output ([write_txt], [write_csv] of [helpers.py]) *)

(** [re.sub(r"</?em>", "", text)]: [skip] counts the characters of a
    matched marker that are still to be passed over. *)
Fixpoint strip_em_from (skip : nat) (s : string) : string :=
  match s with
  | EmptyString => EmptyString
  | String c s' =>
      match skip with
      | S k => strip_em_from k s'
      | O =>
          if bool_decide (is_Some (strip_prefix "<em>" s))
          then strip_em_from 3 s'
          else if bool_decide (is_Some (strip_prefix "</em>" s))
          then strip_em_from 4 s'
          else String c (strip_em_from 0 s')
      end
  end.

Definition strip_em (s : string) : string := strip_em_from 0 s.

(** The lines [write_txt] writes, without their line ends. *)
Definition txt_lines (lines : list LineRecord) : list string :=
  map (λ entry, strip_em (text entry)) lines.

(** The rows [write_csv] writes after the header: [{**row, "text": text}]. *)
Definition csv_rows (lines : list LineRecord) : list LineRecord :=
  map (λ row, {| line_no := line_no row; text := strip_em (text row);
                 lg := lg row; l_id := l_id row; folio := folio row;
                 col := col row; speaker := speaker row |}) lines.

(** A stretch of text as the renderer marks it: wrapped in emphasis
    markers when it comes from an expansion, as it is otherwise. *)
Definition show_segment (seg : bool * string) : string :=
  if seg.1 then "<em>" +:+ seg.2 +:+ "</em>" else seg.2.

(** ** Apostrophes in the text of [process_div.py] *)

Definition is_apostrophe (c : ascii) : bool := Ascii.eqb c "'".

(** No white space stands next to an apostrophe in [s]; [prev] is the
    character before [s], if any. *)
Fixpoint apostrophes_tight (prev : option ascii) (s : string) : bool :=
  match s with
  | EmptyString => true
  | String c s' =>
      negb (match prev with
            | Some p => (is_apostrophe p && Py.is_space c)
                        || (Py.is_space p && is_apostrophe c)
            | None => false
            end)
      && apostrophes_tight (Some c) s'
  end.

(** The same on code points: [is_q] tells the characters next to
    which no white space may stand. *)
Fixpoint quotes_tight (is_q : N → bool) (prev : option N) (s : list N)
  : bool :=
  match s with
  | [] => true
  | c :: s' =>
      negb (match prev with
            | Some p => (is_q p && Unicode.is_space c)
                        || (Unicode.is_space p && is_q c)
            | None => false
            end)
      && quotes_tight is_q (Some c) s'
  end.

Definition is_code_point (q n : N) : bool := (n =? q)%N.

(** The apostrophe and the typographic apostrophe. *)
Definition is_quote (n : N) : bool :=
  is_code_point ProcessDiv.APOSTROPHE n
  || is_code_point ProcessDiv.TYPOGRAPHIC_APOSTROPHE n.

(** The last character of [s], [prev] when [s] is empty. *)
Definition last_or (prev : option N) (s : list N) : option N :=
  match last s with
  | Some x => Some x
  | None => prev
  end.

(** The code points of a text with a spaced typographic apostrophe and
    a spaced apostrophe: l, space, U+2019, space, a, space, apostrophe,
    b. *)
Definition spaced_quotes_text : list N :=
  [108; 32; 8217; 32; 97; 32; 39; 98]%N.

(** A line with spaced apostrophes. *)
Definition apostrophe_line : Element :=
  elem (tei "l") [] (Some "qu ' il  l' a") [].

(** A source whose section follows a numbered page break. *)
Definition numbered_pb_source : Element :=
  elem (tei "TEI") [] None
    [ elem (tei "pb") [("n", "7v")] None [];
      elem (tei "div") [(XML_ID, "d1")] None [] ].
(** * Properties *)

(** ** Trees and the node-order index *)


Lemma iter_at_unfold p e :
  ET.iter_at p e = (p, e) :: ET.iter_children p 0 (ET.children e).
Proof.
  destruct e as [t a tx tl cs]; simpl. f_equal.
  generalize 0. induction cs as [|c cs IH]; intros i; simpl; [done|].
  by rewrite IH.
Qed.

Lemma iter_children_cons p i c cs :
  ET.iter_children p i (c :: cs) =
  ET.iter_at (p ++ [i]) c ++ ET.iter_children p (S i) cs.
Proof. done. Qed.

(** Every node listed below [p] carries a path that extends [p]. *)
Lemma iter_at_prefix e : ∀ p n, n ∈ ET.iter_at p e → p `prefix_of` n.1.
Proof.
  induction e as [t a tx tl cs IH] using Element_ind; intros p n.
  rewrite iter_at_unfold; simpl. intros [->|Hin]%elem_of_cons; [done|].
  revert Hin. generalize 0.
  induction IH as [|c cs Hc _ IHcs]; intros i; simpl.
  - by intros ?%elem_of_nil.
  - intros [Hin|Hin]%elem_of_app.
    + apply Hc in Hin. etrans; [|exact Hin]. by apply prefix_app_r.
    + by eapply IHcs.
Qed.

Lemma iter_children_prefix p cs : ∀ i n,
  n ∈ ET.iter_children p i cs → ∃ j q, i ≤ j ∧ n.1 = p ++ j :: q.
Proof.
  induction cs as [|c cs IH]; intros i n; simpl.
  - by intros ?%elem_of_nil.
  - intros [Hin|Hin]%elem_of_app.
    + apply iter_at_prefix in Hin as [q Hq]. exists i, q. split; [lia|].
      by rewrite Hq, <-app_assoc.
    + apply IH in Hin as (j & q & ? & ?). exists j, q. split; [lia|done].
Qed.

(** Object identity is well defined: no path occurs twice in a
    preorder listing. *)
Lemma iter_at_NoDup e : ∀ p, NoDup (ET.iter_at p e).*1.
Proof.
  induction e as [t a tx tl cs IH] using Element_ind; intros p.
  rewrite iter_at_unfold; simpl. apply NoDup_cons. split.
  - intros (n & Hp & Hin)%list_elem_of_fmap.
    apply iter_children_prefix in Hin as (j & q & _ & Hq).
    rewrite Hq in Hp. apply (f_equal length) in Hp.
    rewrite length_app in Hp. simpl in Hp. lia.
  - generalize 0. induction IH as [|c cs Hc _ IHcs]; intros i; simpl.
    + constructor.
    + rewrite fmap_app. apply NoDup_app. split_and!; [apply Hc| |apply IHcs].
      intros x (n & -> & Hn)%list_elem_of_fmap (m & Hm & Hin)%list_elem_of_fmap.
      apply iter_at_prefix in Hn as [q Hq].
      apply iter_children_prefix in Hin as (j & q' & Hj & Hq').
      rewrite Hm, Hq', <-app_assoc in Hq. apply app_inv_head in Hq.
      simplify_eq/=. lia.
Qed.

Lemma doc_nodes_NoDup root : NoDup (doc_nodes root).*1.
Proof.
  unfold doc_nodes. destruct (find_desc _ _ _); apply iter_at_NoDup.
Qed.

(** Position of a node that is preceded only by other nodes. *)
Lemma index_app_here (l : node) (pre post : list node) :
  l.1 ∉ pre.*1 → ET.index l (pre ++ l :: post) = Some (length pre).
Proof.
  induction pre as [|n pre IH]; simpl; intros Hni.
  - unfold ET.same_node. by rewrite bool_decide_eq_true_2.
  - apply not_elem_of_cons in Hni as [Hne Hni].
    unfold ET.same_node. rewrite bool_decide_eq_false_2 by done.
    by rewrite IH.
Qed.


(** The nodes visited by a backward scan from a node of the index. *)
Lemma preceding_split (nodes pre post : list node) (l : node) :
  NoDup nodes.*1 → nodes = pre ++ l :: post →
  preceding nodes l = Some (rev pre).
Proof.
  intros Hnd ->. unfold preceding.
  rewrite fmap_app, fmap_cons in Hnd.
  apply NoDup_app in Hnd as (_ & Hdis & _).
  rewrite index_app_here; simpl.
  - by rewrite take_app_length.
  - intros Hin. apply (Hdis _ Hin). by left.
Qed.

(** ** Counting elements *)

Lemma count_tag_unfold t e :
  count_tag t e =
  (if bool_decide (ET.tag e = t) then 1 else 0) + count_below t e.
Proof. by destruct e. Qed.

Lemma filter_iter_at_length t e : ∀ p,
  length (filter (λ n : node, ET.tag n.2 = t) (ET.iter_at p e)) = count_tag t e.
Proof.
  induction e as [t' a tx tl cs IH] using Element_ind; intros p.
  rewrite iter_at_unfold, filter_cons, count_tag_unfold; simpl.
  assert (∀ i, length (filter (λ n : node, ET.tag n.2 = t)
                         (ET.iter_children p i cs))
               = sum_list (map (count_tag t) cs)) as Hcs.
  { induction IH as [|c cs Hc _ IHcs]; intros i; simpl; [done|].
    by rewrite filter_app, length_app, Hc, IHcs. }
  unfold count_below; simpl.
  case_decide; case_bool_decide; try done; simpl; by rewrite Hcs.
Qed.

Lemma findall_desc_length name p e :
  length (findall_desc name p e) = count_below (tei name) e.
Proof.
  unfold findall_desc, count_below. generalize 0.
  induction (ET.children e) as [|c cs IH]; intros i; simpl; [done|].
  by rewrite filter_app, length_app, filter_iter_at_length, IH.
Qed.

(** ** The loop over the lines *)

Section LoopFacts.
Context (line_text speaker_of : Element → string).
Context (nodes : list node) (pm : gmap path node).
Context (initial_folio initial_col : string).

Local Abbreviation body :=
  (loop_body line_text speaker_of nodes pm initial_folio initial_col).

(** One iteration appends one record and leaves the earlier ones. *)
Lemma loop_body_lines st l :
  ∃ r, lines (body st l) = lines st ++ [r]
       ∧ line_counter (body st l) = S (line_counter st)
       ∧ line_no r = S (line_counter st)
       ∧ text r = line_text l.2
       ∧ l_id r = l_id_of l.2
       ∧ folio r = folio_at nodes l initial_folio
       ∧ col r = col_at nodes l initial_col
       ∧ speaker r = speaker_at speaker_of nodes l.
Proof.
  unfold loop_body.
  destruct (assign_group _ _ _) as [[agm ngi] lg_num]; simpl.
  eexists; split_and!; done.
Qed.

Lemma loop_lines_prefix ls : ∀ st,
  lines st `prefix_of` lines (foldl body st ls).
Proof.
  induction ls as [|l ls IH]; intros st; simpl; [done|].
  etrans; [|apply IH].
  destruct (loop_body_lines st l) as (r & -> & _). by apply prefix_app_r.
Qed.

Lemma loop_line_no ls : ∀ st,
  line_no <$> lines (foldl body st ls) =
  (line_no <$> lines st) ++ seq (S (line_counter st)) (length ls).
Proof.
  induction ls as [|l ls IH]; intros st; simpl.
  - by rewrite app_nil_r.
  - rewrite IH.
    destruct (loop_body_lines st l) as (r & -> & -> & Hno & _).
    by rewrite fmap_app, <-app_assoc, <-Hno.
Qed.

(** The record of the [k]-th line. *)
Lemma loop_lookup ls : ∀ st k l,
  ls !! k = Some l →
  ∃ r, lines (foldl body st ls) !! (length (lines st) + k) = Some r
       ∧ line_no r = S (line_counter st + k)
       ∧ text r = line_text l.2
       ∧ l_id r = l_id_of l.2
       ∧ folio r = folio_at nodes l initial_folio
       ∧ col r = col_at nodes l initial_col
       ∧ speaker r = speaker_at speaker_of nodes l.
Proof.
  induction ls as [|l' ls IH]; intros st k l Hk; [done|].
  destruct (loop_body_lines st l') as (r & Hl & Hc & Hr).
  destruct k as [|k]; simplify_eq/=.
  - exists r. rewrite !Nat.add_0_r. split; [|done].
    eapply prefix_lookup_Some; [|apply loop_lines_prefix].
    rewrite Hl. by apply list_lookup_middle.
  - destruct (IH (body st l') k l Hk) as (r' & Hlk & Hno & Hrest).
    exists r'. rewrite Hl, length_app, Hc in *. simpl in *.
    replace (length (lines st) + S k) with (length (lines st) + 1 + k) by lia.
    split; [done|]. split; [|done]. rewrite Hno. lia.
Qed.

End LoopFacts.

Section ExtractFacts.
Context (line_text speaker_of : Element → string).
Context (root : Element) (initial_folio initial_col : string).

Local Abbreviation rs :=
  (extract_lines_with line_text speaker_of root initial_folio initial_col).

Lemma extract_line_no : line_no <$> rs = seq 1 (count_below (tei "l") root).
Proof.
  unfold extract_lines_with, run_loop. rewrite loop_line_no; simpl.
  by rewrite findall_desc_length.
Qed.

Lemma extract_length : length rs = count_below (tei "l") root.
Proof.
  rewrite <-(length_fmap line_no), extract_line_no. apply length_seq.
Qed.

Lemma extract_lookup k l :
  findall_desc "l" [] root !! k = Some l →
  ∃ r, rs !! k = Some r
       ∧ line_no r = S k
       ∧ text r = line_text l.2
       ∧ l_id r = l_id_of l.2
       ∧ folio r = folio_at (doc_nodes root) l initial_folio
       ∧ col r = col_at (doc_nodes root) l initial_col
       ∧ speaker r = speaker_at speaker_of (doc_nodes root) l.
Proof.
  intros Hk. unfold extract_lines_with, run_loop.
  exact (loop_lookup line_text speaker_of (doc_nodes root)
           (parent_map (doc_nodes root)) initial_folio initial_col
           _ initial_state k l Hk).
Qed.

End ExtractFacts.

(** ** The scenario *)

(** C1 (as amended): on the scenario document with its elements in the
    TEI namespace, and empty seeds, extraction yields exactly the two
    records of the scenario. *)
Theorem scenario_tei_records :
  Helpers.extract_lines_from_xml scenario_tei "" "" = scenario_records.
Proof. vm_compute. reflexivity. Qed.

(** C1 (as stated) fails: the scenario text carries no namespace
    declaration, its elements are not found by the queries for
    [tei:l], and no record is produced. *)
Lemma scenario_plain_no_records :
  Helpers.extract_lines_from_xml scenario_plain "" "" = []
  ∧ Helpers.extract_lines_from_xml scenario_plain "" "" ≠ scenario_records.
Proof. split; [vm_compute; reflexivity|]. vm_compute. discriminate. Qed.

(** ** One record per line *)

Lemma extract_follows_lines line_text speaker_of root f c :
  records_follow_lines line_text root
    (extract_lines_with line_text speaker_of root f c).
Proof.
  split_and!.
  - apply extract_length.
  - by rewrite extract_line_no, extract_length.
  - intros k l Hk.
    destruct (extract_lookup line_text speaker_of root f c k l Hk)
      as (r & ? & ? & ? & ? & _).
    by exists r.
Qed.

(** C2 (as amended): both extraction functions return one record per
    line element strictly below the root of the document, numbered
    1, 2, ..., N in document order; when the root is not itself a line
    element these are all the line elements of the document. *)
Theorem one_record_per_line_below_root (root : Element) (f c : string) :
  records_follow_lines Helpers.line_text root
    (Helpers.extract_lines_from_xml root f c)
  ∧ records_follow_lines ProcessDiv.line_text root
      (ProcessDiv.extract_lines_from_xml root f c)
  ∧ (¬ is_line root → count_below (tei "l") root = count_tag (tei "l") root).
Proof.
  split_and!; [apply extract_follows_lines..|].
  intros Hroot. rewrite count_tag_unfold.
  unfold is_line in Hroot. by rewrite bool_decide_eq_false_2.
Qed.

Lemma one_record_per_line_below_root_witness :
  ¬ is_line scenario_tei
  ∧ count_below (tei "l") scenario_tei = count_tag (tei "l") scenario_tei.
Proof.
  assert (¬ is_line scenario_tei) as H by (vm_compute; discriminate).
  split; [exact H|].
  exact (proj2 (proj2 (one_record_per_line_below_root scenario_tei "" "")) H).
Defined.

(** C2 (as stated) fails: a document whose root is a line element
    holds one line element and yields no record. *)
Lemma lone_line_no_record :
  count_tag (tei "l") lone_line_doc = 1
  ∧ Helpers.extract_lines_from_xml lone_line_doc "" "" = []
  ∧ ProcessDiv.extract_lines_from_xml lone_line_doc "" "" = [].
Proof. split_and!; vm_compute; reflexivity. Qed.

(** ** The markup renderer *)

Lemma append_empty_r (s : string) : s +:+ "" = s.
Proof.
  induction s as [|c s IH]; [done|].
  change (String c (s +:+ "") = String c s). by rewrite IH.
Qed.

Lemma join_single_tail (s : string) (tl : option string) :
  Py.join (s :: part_if_any tl) = s +:+ Py.or_str tl "".
Proof.
  destruct tl as [[|c t]|]; simpl; rewrite ?append_empty_r; done.
Qed.

(** C6 (as amended): a gap element renders as the ellipsis token
    followed by the element's own tail, whatever its text and
    children; an expansion element with text abc and no child renders
    as that text between emphasis markers, followed by its own tail.
    Without a tail the result is exactly the token, respectively the
    wrapped text. *)
Theorem render_gap_and_expansion :
  (∀ e, ns_tag (ET.tag e) = "gap" →
     get_text_with_markup e = " [...]" +:+ Py.or_str (ET.tail e) ""
     ∧ (ET.tail e = None → get_text_with_markup e = " [...]"))
  ∧ (∀ t a tl, ns_tag t = "ex" →
       get_text_with_markup (ET.Elem t a (Some "abc") tl [])
         = "<em>abc</em>" +:+ Py.or_str tl ""
       ∧ (tl = None →
          get_text_with_markup (ET.Elem t a (Some "abc") tl [])
            = "<em>abc</em>")).
Proof.
  split.
  - intros [t a tx tl cs] Ht; simpl in Ht.
    assert (get_text_with_markup (ET.Elem t a tx tl cs)
            = " [...]" +:+ Py.or_str tl "") as Heq.
    { cbn [get_text_with_markup]. rewrite Ht. cbn [String.eqb Ascii.eqb Bool.eqb orb].
      apply join_single_tail. }
    split; [exact Heq|]. cbn [ET.tail]. intros ->. by rewrite Heq.
  - intros t a tl Ht.
    assert (get_text_with_markup (ET.Elem t a (Some "abc") tl [])
            = "<em>abc</em>" +:+ Py.or_str tl "") as Heq.
    { cbn [get_text_with_markup]. rewrite Ht. cbn [String.eqb Ascii.eqb Bool.eqb].
      apply join_single_tail. }
    split; [exact Heq|]. intros ->. by rewrite Heq.
Qed.

Lemma render_gap_and_expansion_witness :
  get_text_with_markup gap_with_content = " [...]"
  ∧ get_text_with_markup expansion_abc = "<em>abc</em>".
Proof.
  split.
  - apply (proj1 render_gap_and_expansion gap_with_content); reflexivity.
  - apply (proj2 render_gap_and_expansion (tei "ex") ∅ None); reflexivity.
Defined.

(** C6 (as stated) fails: a gap followed by text renders as the token
    followed by that text. *)
Lemma gap_with_tail_rendering :
  ns_tag (ET.tag gap_with_tail) = "gap"
  ∧ get_text_with_markup gap_with_tail = " [...]b"
  ∧ get_text_with_markup gap_with_tail ≠ " [...]".
Proof. split_and!; [vm_compute; reflexivity..|]. vm_compute. discriminate. Qed.

(** ** Backward scans *)

Lemma same_path_same_node (ns : list node) (a b : node) :
  NoDup ns.*1 → a ∈ ns → b ∈ ns → a.1 = b.1 → a = b.
Proof.
  induction ns as [|n ns IH]; [by intros _ ?%elem_of_nil|].
  rewrite fmap_cons. intros [Hn Hnd]%NoDup_cons Ha Hb Hab.
  apply elem_of_cons in Ha as [->|Ha]; apply elem_of_cons in Hb as [->|Hb].
  - done.
  - exfalso. apply Hn. rewrite Hab. by apply list_elem_of_fmap_2.
  - exfalso. apply Hn. rewrite <-Hab. by apply list_elem_of_fmap_2.
  - by apply IH.
Qed.

Lemma iter_at_self p e : (p, e) ∈ ET.iter_at p e.
Proof. rewrite iter_at_unfold. by left. Qed.

(** The listing of a subtree is part of the listing of the tree. *)
Lemma iter_at_subtree e : ∀ p n,
  n ∈ ET.iter_at p e → ET.iter_at n.1 n.2 ⊆ ET.iter_at p e.
Proof.
  induction e as [t a tx tl cs IH] using Element_ind; intros p n.
  rewrite (iter_at_unfold p). cbn [ET.children].
  intros [->|Hin]%elem_of_cons.
  { simpl. by rewrite <-iter_at_unfold. }
  intros m Hm. right. revert Hin. generalize 0.
  induction IH as [|c cs Hc _ IHcs]; intros i; simpl.
  - by intros ?%elem_of_nil.
  - intros [Hin|Hin]%elem_of_app; apply elem_of_app.
    + left. by apply (Hc _ _ Hin).
    + right. by apply IHcs.
Qed.

Lemma findall_desc_in_iter name root n :
  n ∈ findall_desc name [] root → n ∈ ET.iter root.
Proof.
  unfold findall_desc, ET.iter. rewrite iter_at_unfold.
  intros [_ Hin]%list_elem_of_filter. by right.
Qed.

Lemma line_elements_in_iter root k l :
  line_elements root !! k = Some l → l ∈ ET.iter root.
Proof.
  intros Hk. eapply findall_desc_in_iter, list_elem_of_lookup_2, Hk.
Qed.

Lemma doc_nodes_in_iter root : doc_nodes root ⊆ ET.iter root.
Proof.
  unfold doc_nodes, find_desc.
  destruct (head _) as [d|] eqn:Hd; [|done].
  apply iter_at_subtree, (findall_desc_in_iter "div").
  destruct (findall_desc "div" [] root); simplify_eq/=. by left.
Qed.

Lemma marker_value_effective e initial :
  effective_value e ≠ "" → marker_value e initial = effective_value e.
Proof.
  unfold effective_value, marker_value.
  destruct (ET.get e "n") as [[|??]|]; simpl; try done;
    destruct (ET.get e XML_ID) as [[|??]|]; simpl; done.
Qed.

Lemma marker_value_bare e initial :
  ET.get e "n" = None → ET.get e XML_ID = None → marker_value e initial = initial.
Proof. unfold marker_value. by intros -> ->. Qed.

Lemma scan_folio_none initial prevs :
  Forall (λ n : node, ¬ is_pb n.2) prevs → scan_folio initial prevs = initial.
Proof.
  induction 1 as [|n prevs Hn _ IH]; simpl; [done|].
  unfold is_pb in Hn. by rewrite (proj2 (String.eqb_neq _ _) Hn).
Qed.

Lemma scan_folio_nearest initial near pb far :
  Forall (λ n : node, ¬ is_pb n.2) near → is_pb pb.2 →
  scan_folio initial (near ++ pb :: far) = marker_value pb.2 initial.
Proof.
  intros Hnear Hpb. induction Hnear as [|n near Hn _ IH]; simpl.
  - unfold is_pb in Hpb. by rewrite Hpb.
  - unfold is_pb in Hn. by rewrite (proj2 (String.eqb_neq _ _) Hn).
Qed.



(** What a backward scan from [l] visits when a marker [m] is the only
    thing known about what precedes [l]. *)
Lemma preceding_marker (nodes pre mid post : list node) (m l : node) :
  NoDup nodes.*1 → nodes = pre ++ m :: mid ++ l :: post →
  preceding nodes l = Some (rev mid ++ m :: rev pre).
Proof.
  intros Hnd Heq.
  rewrite (preceding_split nodes (pre ++ m :: mid) post l Hnd).
  - rewrite rev_app_distr; simpl. by rewrite <-app_assoc.
  - by rewrite Heq, <-app_assoc.
Qed.


Section RecordLines.
Context (line_text speaker_of : Element → string).
Context (root : Element) (initial_folio initial_col : string).

Local Abbreviation rs :=
  (extract_lines_with line_text speaker_of root initial_folio initial_col).

(** Every record stems from the line element of the same rank. *)
Lemma extract_record_line k r :
  rs !! k = Some r →
  ∃ l, line_elements root !! k = Some l
       ∧ folio r = folio_at (doc_nodes root) l initial_folio
       ∧ col r = col_at (doc_nodes root) l initial_col
       ∧ speaker r = speaker_at speaker_of (doc_nodes root) l.
Proof.
  intros Hr. assert (k < length (line_elements root)) as Hk.
  { unfold line_elements.
    rewrite findall_desc_length,
      <-(extract_length line_text speaker_of root initial_folio initial_col).
    eapply lookup_lt_Some, Hr. }
  apply lookup_lt_is_Some in Hk as [l Hl]. exists l. split; [done|].
  destruct (extract_lookup line_text speaker_of root initial_folio
              initial_col k l Hl) as (r' & Hr' & _ & _ & _ & ? & ? & ?).
  by simplify_eq.
Qed.
End RecordLines.

Lemma extractors_generic extract :
  extract ∈ extractors →
  ∃ line_text speaker_of, extract = extract_lines_with line_text speaker_of.
Proof.
  unfold extractors. rewrite !elem_of_cons, elem_of_nil.
  intros [->|[->|[]]]; eauto.
Qed.

(** ** Folio resolution *)

Section FolioFacts.
Context (line_text speaker_of : Element → string).
Context (root : Element) (seed_folio seed_col : string).

Local Abbreviation rs :=
  (extract_lines_with line_text speaker_of root seed_folio seed_col).

Lemma folio_nearest_pb pre pb mid l post k :
  doc_nodes root = pre ++ pb :: mid ++ l :: post →
  is_pb pb.2 → Forall (λ n : node, ¬ is_pb n.2) mid →
  line_elements root !! k = Some l →
  ∃ r, rs !! k = Some r ∧ folio r = marker_value pb.2 seed_folio.
Proof.
  intros Hsplit Hpb Hmid Hl.
  destruct (extract_lookup line_text speaker_of root seed_folio seed_col
              k l Hl) as (r & Hr & _ & _ & _ & Hf & _).
  exists r. split; [done|]. rewrite Hf. unfold folio_at.
  rewrite (preceding_marker _ pre mid post pb l (doc_nodes_NoDup root) Hsplit).
  apply scan_folio_nearest; [|done]. by apply Forall_rev.
Qed.

Lemma folio_without_pb :
  Forall (λ n : node, ¬ is_pb n.2) (ET.iter root) →
  Forall (λ r, folio r = seed_folio) rs.
Proof.
  intros Hno. apply Forall_lookup. intros k r Hr.
  destruct (extract_record_line line_text speaker_of root seed_folio
              seed_col k r Hr) as (l & _ & -> & _).
  unfold folio_at, preceding.
  destruct (ET.index l (doc_nodes root)) as [idx|]; simpl; [|done].
  apply scan_folio_none, Forall_rev, Forall_take.
  apply Forall_forall. intros n Hn.
  by apply (proj1 (Forall_forall _ _) Hno), doc_nodes_in_iter.
Qed.
End FolioFacts.

(** C3 (as amended): for both extraction functions, when the node-order
    index (the subtree of the first section element, the whole
    document when there is none) holds a page break of effective value
    12, or any other non-empty value, followed by a line with no page
    break in between, that line resolves to this folio for every seed;
    and when the document holds no page break at all, every line
    resolves to the seed folio. *)
Theorem folio_of_page_break_in_index extract root seed_folio seed_col :
  extract ∈ extractors →
  (∀ pre pb mid l post k v,
     doc_nodes root = pre ++ pb :: mid ++ l :: post →
     is_pb pb.2 → effective_value pb.2 = v → v ≠ "" →
     Forall (λ n : node, ¬ is_pb n.2) mid →
     line_elements root !! k = Some l →
     ∃ r, extract root seed_folio seed_col !! k = Some r ∧ folio r = v)
  ∧ (Forall (λ n : node, ¬ is_pb n.2) (ET.iter root) →
     Forall (λ r, folio r = seed_folio) (extract root seed_folio seed_col)).
Proof.
  intros (line_text & speaker_of & ->)%extractors_generic. split.
  - intros pre pb mid l post k v Hsplit Hpb Hv Hne Hmid Hl.
    destruct (folio_nearest_pb line_text speaker_of root seed_folio seed_col
                pre pb mid l post k Hsplit Hpb Hmid Hl) as (r & Hr & Hf).
    exists r. split; [done|]. rewrite Hf, marker_value_effective; congruence.
  - apply folio_without_pb.
Qed.

Lemma folio_of_page_break_in_index_witness :
  (∃ r, Helpers.extract_lines_from_xml three_lines_doc "5r" "" !! 2 = Some r
        ∧ folio r = "12")
  ∧ Forall (λ r, folio r = "7v")
      (ProcessDiv.extract_lines_from_xml speech_doc "7v" "").
Proof.
  split.
  - apply (proj1 (folio_of_page_break_in_index
                    Helpers.extract_lines_from_xml three_lines_doc "5r" ""
                    ltac:(by left))
             [([], three_lines_doc)] ([0], pb12)
             [([1], line_a); ([2], line_b)] ([3], line_c) [] 2 "12").
    + vm_compute; reflexivity.
    + vm_compute; reflexivity.
    + vm_compute; reflexivity.
    + discriminate.
    + repeat constructor; vm_compute; discriminate.
    + vm_compute; reflexivity.
  - apply (proj2 (folio_of_page_break_in_index
                    ProcessDiv.extract_lines_from_xml speech_doc "7v" ""
                    ltac:(right; by left))).
    repeat constructor; vm_compute; discriminate.
Defined.

(** C3 (as stated) fails: a page break that precedes the section
    element is in the document but not in the index, and the line
    resolves to the seed. *)
Lemma page_break_before_section_ignored :
  ET.iter pb_before_div_doc
    = [ ([], pb_before_div_doc); ([0], pb12);
        ([1], section_x); ([1; 0], line_x) ]
  ∧ effective_value pb12 = "12"
  ∧ folio <$> Helpers.extract_lines_from_xml pb_before_div_doc "5" "" = ["5"]
  ∧ folio <$> ProcessDiv.extract_lines_from_xml pb_before_div_doc "5" "" = ["5"].
Proof. split_and!; vm_compute; reflexivity. Qed.

(** C4 (as amended): for both extraction functions, a line whose
    nearest preceding page break in the index carries neither an [n]
    attribute nor an identifier attribute resolves to the seed folio
    supplied by the caller. *)
Theorem folio_of_bare_page_break extract root seed_folio seed_col
  pre pb mid l post k :
  extract ∈ extractors →
  doc_nodes root = pre ++ pb :: mid ++ l :: post →
  is_pb pb.2 → ET.get pb.2 "n" = None → ET.get pb.2 XML_ID = None →
  Forall (λ n : node, ¬ is_pb n.2) mid →
  line_elements root !! k = Some l →
  ∃ r, extract root seed_folio seed_col !! k = Some r ∧ folio r = seed_folio.
Proof.
  intros (line_text & speaker_of & ->)%extractors_generic
         Hsplit Hpb Hn Hid Hmid Hl.
  destruct (folio_nearest_pb line_text speaker_of root seed_folio seed_col
              pre pb mid l post k Hsplit Hpb Hmid Hl) as (r & Hr & Hf).
  exists r. split; [done|]. by rewrite Hf, marker_value_bare.
Qed.

Lemma folio_of_bare_page_break_witness :
  ∃ r, Helpers.extract_lines_from_xml bare_pb_doc "5r" "" !! 0 = Some r
       ∧ folio r = "5r".
Proof.
  apply (folio_of_bare_page_break Helpers.extract_lines_from_xml bare_pb_doc
           "5r" "" [([], bare_pb_doc)] ([0], bare_pb) [] ([1], line_x) [] 0).
  - by left.
  - vm_compute; reflexivity.
  - vm_compute; reflexivity.
  - vm_compute; reflexivity.
  - vm_compute; reflexivity.
  - constructor.
  - vm_compute; reflexivity.
Defined.

(** C4 (as stated) fails: after a page break without attributes the
    folio is the seed, not the empty string. *)
Lemma bare_page_break_keeps_seed :
  folio <$> Helpers.extract_lines_from_xml bare_pb_doc "5r" "" = ["5r"]
  ∧ folio <$> ProcessDiv.extract_lines_from_xml bare_pb_doc "5r" "" = ["5r"]
  ∧ folio <$> Helpers.extract_lines_from_xml bare_pb_doc "5r" "" ≠ [""].
Proof. split_and!; [vm_compute; reflexivity..|]. vm_compute. discriminate. Qed.

(** ** Speaker resolution *)


Section SpeakerFacts.
Context (line_text speaker_of : Element → string).
Context (root : Element) (seed_folio seed_col : string).

Local Abbreviation rs :=
  (extract_lines_with line_text speaker_of root seed_folio seed_col).

End SpeakerFacts.




(** ** The parent map and the walk to the grouping container *)

Lemma parent_map_snoc ns p :
  parent_map (ns ++ [p])
  = foldl (λ m' i, <[p.1 ++ [i] := p]> m') (parent_map ns)
          (seq 0 (length (ET.children p.2))).
Proof. unfold parent_map. by rewrite foldl_app. Qed.

Lemma insert_children_lookup (p : node) (ixs : list nat) :
  ∀ (m : gmap path node) k v,
    foldl (λ m' i, <[p.1 ++ [i] := p]> m') m ixs !! k = Some v →
    (v = p ∧ ∃ i, k = p.1 ++ [i]) ∨ m !! k = Some v.
Proof.
  induction ixs as [|i ixs IH]; intros m k v; simpl; [by right|].
  intros [?|Hk]%IH; [by left|].
  destruct (decide (p.1 ++ [i] = k)) as [<-|Hne].
  - rewrite lookup_insert_eq in Hk. left. split; [congruence|by exists i].
  - rewrite lookup_insert_ne in Hk by done. by right.
Qed.

(** Every entry of the parent map sends a path to the node of the
    index one step above it. *)
Lemma parent_map_lookup ns k v :
  parent_map ns !! k = Some v → v ∈ ns ∧ ∃ i, k = v.1 ++ [i].
Proof.
  revert k v. induction ns as [|p ns IH] using rev_ind; intros k v.
  - unfold parent_map; simpl. by rewrite lookup_empty.
  - rewrite parent_map_snoc.
    intros [[-> Hi]|Hk]%insert_children_lookup.
    + split; [|done]. apply elem_of_app. right. by left.
    + apply IH in Hk as [Hin Hi]. split; [|done]. apply elem_of_app. by left.
Qed.

(** The iteration budget of the walk is never exhausted. *)
Lemma find_group_loop_enough ns : ∀ fuel p,
  length p < fuel → is_Some (find_group_loop fuel (parent_map ns) p).
Proof.
  induction fuel as [|fuel IH]; intros p Hlen; [lia|]. simpl.
  destruct (parent_map ns !! p) as [v|] eqn:Hv; [|by eexists].
  case_bool_decide; [by eexists|].
  apply IH. apply parent_map_lookup in Hv as [_ [i ->]].
  rewrite length_app in Hlen. simpl in Hlen. lia.
Qed.

(** The grouping tags of the code are those of the three kinds of
    container. *)
Lemma is_group_tags (e : Element) :
  is_group e ↔ ns_tag (ET.tag e) ∈ GROUP_TAGS.
Proof.
  unfold is_group, GROUP_TAGS. rewrite !elem_of_union, !elem_of_singleton.
  tauto.
Qed.

Lemma find_group_loop_found ns : ∀ fuel p a,
  find_group_loop fuel (parent_map ns) p = Some (Some a) →
  a ∈ ns ∧ is_group a.2 ∧ ∃ q, q ≠ [] ∧ p = a.1 ++ q.
Proof.
  induction fuel as [|fuel IH]; intros p a; simpl; [done|].
  destruct (parent_map ns !! p) as [v|] eqn:Hv; [|done].
  apply parent_map_lookup in Hv as [Hin [i ->]].
  case_bool_decide as Hg.
  - intros [= <-]. split_and!; [done|by apply is_group_tags|]. by exists [i].
  - intros (Ha & Hgrp & q & Hq & ->)%IH. split_and!; [done..|].
    exists (q ++ [i]). split; [by destruct q|]. by rewrite app_assoc.
Qed.

Lemma find_group_for_node_loop ns l :
  find_group_loop (S (length l.1)) (parent_map ns) l.1
  = Some (find_group_for_node (parent_map ns) l).
Proof.
  unfold find_group_for_node.
  destruct (find_group_loop_enough ns (S (length l.1)) l.1) as [res ->]; [lia|].
  done.
Qed.

(** The container found for a line is a node of the index, carries a
    grouping tag and lies strictly above the line. *)
Lemma find_group_for_node_found ns l a :
  find_group_for_node (parent_map ns) l = Some a →
  a ∈ ns ∧ is_group a.2 ∧ proper_ancestor a l.
Proof.
  intros Ha. apply (find_group_loop_found ns (S (length l.1)) l.1 a).
  by rewrite find_group_for_node_loop, Ha.
Qed.

(** *** Paths inside a listing *)

Lemma node_at_app q1 : ∀ e q2,
  ET.node_at e (q1 ++ q2) = ET.node_at e q1 ≫= λ y, ET.node_at y q2.
Proof.
  induction q1 as [|i q1 IH]; intros e q2; simpl; [done|].
  destruct (ET.children e !! i) as [c|]; [apply IH|done].
Qed.

Lemma iter_children_elem p cs : ∀ i n,
  n ∈ ET.iter_children p i cs
  ↔ ∃ j c, cs !! j = Some c ∧ n ∈ ET.iter_at (p ++ [i + j]) c.
Proof.
  induction cs as [|c cs IH]; intros i n; simpl.
  - split; [by intros ?%elem_of_nil|by intros (j & c & ? & _)].
  - rewrite elem_of_app, IH. split.
    + intros [Hin|(j & c' & Hj & Hin)].
      * exists 0, c. by rewrite Nat.add_0_r.
      * exists (S j), c'. split; [done|].
        rewrite ?Nat.add_succ_r in *; simpl in *; done.
    + intros ([|j] & c' & Hj & Hin); simplify_eq/=.
      * left. by rewrite Nat.add_0_r in Hin.
      * right. exists j, c'. split; [done|].
        rewrite ?Nat.add_succ_r in *; simpl in *; done.
Qed.

(** A node of a listing sits at its path below the listed element. *)
Lemma iter_at_node_at e : ∀ p n,
  n ∈ ET.iter_at p e → ∃ q, n.1 = p ++ q ∧ ET.node_at e q = Some n.2.
Proof.
  induction e as [t a tx tl cs IH] using Element_ind; intros p n.
  rewrite iter_at_unfold. cbn [ET.children].
  intros [->|Hin]%elem_of_cons.
  - exists []. by rewrite app_nil_r.
  - apply iter_children_elem in Hin as (j & c & Hj & Hin). simpl in Hin.
    destruct (proj1 (Forall_lookup _ _) IH j c Hj _ _ Hin) as (q & Hq & Hat).
    exists (j :: q). split; [by rewrite Hq, <-app_assoc|].
    simpl. by rewrite Hj.
Qed.

Lemma node_at_iter_at q : ∀ e p x,
  ET.node_at e q = Some x → (p ++ q, x) ∈ ET.iter_at p e.
Proof.
  induction q as [|i q IH]; intros e p x; simpl.
  - intros [= ->]. rewrite app_nil_r. apply iter_at_self.
  - destruct (ET.children e !! i) as [c|] eqn:Hc; [|done]. intros Hx.
    rewrite iter_at_unfold. right. apply iter_children_elem.
    exists i, c. split; [done|]. simpl.
    replace (p ++ i :: q) with ((p ++ [i]) ++ q) by (by rewrite <-app_assoc).
    by apply IH.
Qed.

(** A listing holds, with a node, the node one step above it, unless
    the node is the listed element itself. *)
Lemma iter_at_parent e p q i x :
  (p ++ q ++ [i], x) ∈ ET.iter_at p e →
  ∃ y, (p ++ q, y) ∈ ET.iter_at p e ∧ ET.children y !! i = Some x.
Proof.
  intros (q' & Hq' & Hat)%iter_at_node_at. simpl in Hq', Hat.
  apply app_inv_head in Hq' as <-. rewrite node_at_app in Hat.
  destruct (ET.node_at e q) as [y|] eqn:Hy; [|done]. simpl in Hat.
  exists y. split; [by apply node_at_iter_at|].
  by destruct (ET.children y !! i).
Qed.

(** *** The parent map, exactly *)

Lemma insert_children_other (p : node) (ixs : list nat) :
  ∀ (m : gmap path node) k,
    (∀ i, i ∈ ixs → k ≠ p.1 ++ [i]) →
    foldl (λ m' i, <[p.1 ++ [i] := p]> m') m ixs !! k = m !! k.
Proof.
  induction ixs as [|i ixs IH]; intros m k Hk; simpl; [done|].
  rewrite IH by (intros j Hj; apply Hk; by right).
  apply lookup_insert_ne. intros Heq. by apply (Hk i); [left|].
Qed.

Lemma insert_children_here (p : node) (ixs : list nat) :
  ∀ (m : gmap path node) i,
    i ∈ ixs →
    foldl (λ m' i, <[p.1 ++ [i] := p]> m') m ixs !! (p.1 ++ [i]) = Some p.
Proof.
  induction ixs as [|j ixs IH]; intros m i; simpl; [by intros ?%elem_of_nil|].
  intros Hin. destruct (decide (i ∈ ixs)) as [Hi|Hni]; [by apply IH|].
  apply elem_of_cons in Hin as [->|?]; [|done].
  rewrite insert_children_other; [apply lookup_insert_eq|].
  intros i' Hi' [_ Heq]%app_inj_tail. by subst.
Qed.

Lemma parent_map_child ns v i :
  NoDup ns.*1 → v ∈ ns → i < length (ET.children v.2) →
  parent_map ns !! (v.1 ++ [i]) = Some v.
Proof.
  revert v i. induction ns as [|p ns IH] using rev_ind; intros v i Hnd Hv Hi.
  - by apply elem_of_nil in Hv.
  - rewrite parent_map_snoc. rewrite fmap_app in Hnd.
    apply NoDup_app in Hnd as (Hnd & Hdis & _).
    apply elem_of_app in Hv as [Hv| ->%list_elem_of_singleton].
    + rewrite insert_children_other; [by apply IH|].
      intros j _ [Heq _]%app_inj_tail.
      apply (Hdis v.1); [by apply list_elem_of_fmap_2|].
      rewrite Heq. by left.
    + apply insert_children_here, elem_of_seq. lia.
Qed.

(** *** The walk stops at the nearest grouping container *)

Lemma walk_nearest p0 e0 (b : node) :
  b ∈ ET.iter_at p0 e0 → is_group b.2 →
  ∀ fuel q x res,
    q ≠ [] → (b.1 ++ q, x) ∈ ET.iter_at p0 e0 →
    find_group_loop fuel (parent_map (ET.iter_at p0 e0)) (b.1 ++ q) = Some res →
    ∃ a, res = Some a ∧ b.1 `prefix_of` a.1.
Proof.
  intros Hb Hgrp.
  destruct (iter_at_prefix _ _ _ Hb) as [qb Hqb].
  induction fuel as [|fuel IH]; intros q x res Hq Hx; simpl; [done|].
  destruct (exists_last Hq) as (q' & i & ->).
  assert (∃ y, (b.1 ++ q', y) ∈ ET.iter_at p0 e0
               ∧ ET.children y !! i = Some x) as (y & Hy & Hi).
  { rewrite Hqb, <-!app_assoc in Hx |- *. rewrite (app_assoc qb) in Hx.
    exact (iter_at_parent _ _ _ _ _ Hx). }
  pose proof (parent_map_child _ (b.1 ++ q', y) i (iter_at_NoDup _ _) Hy
                ltac:(by eapply lookup_lt_Some)) as Hpm.
  cbn [fst] in Hpm. rewrite app_assoc, Hpm. cbn [fst snd].
  case_bool_decide as Hg.
  - intros [= <-]. eexists. split; [done|]. by apply prefix_app_r.
  - destruct q' as [|j q'] using rev_ind.
    + exfalso. apply Hg. rewrite app_nil_r in Hy.
      assert ((b.1, y) = b) as Heq
        by (by apply (same_path_same_node _ _ _ (iter_at_NoDup _ _) Hy Hb)).
      apply (f_equal snd) in Heq. simpl in Heq. rewrite Heq.
      by apply is_group_tags.
    + intros Hres. eapply (IH (q' ++ [j])); [by destruct q'|exact Hy|exact Hres].
Qed.

(** A line below a node of the index is itself in the index. *)
Lemma doc_nodes_below root (b l : node) :
  b ∈ doc_nodes root → l ∈ ET.iter root → proper_ancestor b l →
  ∃ p0 e0, doc_nodes root = ET.iter_at p0 e0 ∧ l ∈ ET.iter_at p0 e0.
Proof.
  intros Hb Hl (q & _ & Hq).
  assert (∃ p0 e0, doc_nodes root = ET.iter_at p0 e0
                   ∧ (p0, e0) ∈ ET.iter root) as (p0 & e0 & Hdoc & Hd).
  { unfold doc_nodes, find_desc.
    destruct (head _) as [d|] eqn:Hd.
    - exists d.1, d.2. split; [done|]. rewrite <-surjective_pairing.
      apply (findall_desc_in_iter "div").
      destruct (findall_desc "div" [] root); simplify_eq/=. by left.
    - exists [], root. split; [done|]. apply iter_at_self. }
  exists p0, e0. split; [done|]. rewrite Hdoc in Hb.
  apply iter_at_node_at in Hb as (qb & Hqb & Hatb).
  apply iter_at_node_at in Hd as (qd & Hqd & Hatd).
  apply iter_at_node_at in Hl as (ql & Hql & Hatl).
  simpl in Hqd, Hatd, Hql. subst p0. rewrite Hql in Hq.
  rewrite Hq, Hqb, !node_at_app, Hatd in Hatl. simpl in Hatl.
  rewrite Hatb in Hatl. simpl in Hatl.
  destruct l as [pl el]. simpl in *. subst ql pl.
  rewrite Hqb, <-app_assoc. apply node_at_iter_at.
  by rewrite node_at_app, Hatb.
Qed.

(** The container found for a line of the document is the nearest
    node of the index above the line that carries a grouping tag. *)
Lemma find_group_for_node_nearest root (b l : node) :
  l ∈ ET.iter root → b ∈ doc_nodes root → is_group b.2 →
  proper_ancestor b l →
  ∃ a, find_group_for_node (parent_map (doc_nodes root)) l = Some a
       ∧ b.1 `prefix_of` a.1.
Proof.
  intros Hl Hb Hgrp Hanc.
  destruct (doc_nodes_below root b l Hb Hl Hanc) as (p0 & e0 & Hdoc & Hl').
  destruct Hanc as (q & Hq & Hlq).
  pose proof (find_group_for_node_loop (doc_nodes root) l) as Hloop.
  rewrite Hdoc in Hb, Hloop |- *. rewrite Hlq in Hloop.
  apply (walk_nearest p0 e0 b Hb Hgrp _ q l.2) in Hloop; [done..|].
  by rewrite <-Hlq, <-surjective_pairing.
Qed.

(** ** Group identifiers *)

Lemma str_inj (n m : nat) : Py.str n = Py.str m → n = m.
Proof.
  unfold Py.str. intros H.
  assert (Some (Nat.to_uint n) = Some (Nat.to_uint m)) as [= Hu].
  { by rewrite <-!NilEmpty.usu, H. }
  by rewrite <-(DecimalNat.Unsigned.of_to n), Hu, DecimalNat.Unsigned.of_to.
Qed.

Lemma str_S_not_zero (n : nat) : Py.str (S n) ≠ "0".
Proof. intros H. by apply (str_inj (S n) 0) in H. Qed.

Lemma discover_prefix ancs : ∀ seen, seen `prefix_of` discover seen ancs.
Proof.
  induction ancs as [|[a|] ancs IH]; intros seen; simpl; [done| |apply IH].
  etrans; [|apply IH]. case_bool_decide; [done|]. by apply prefix_app_r.
Qed.

Lemma discover_NoDup ancs : ∀ seen, NoDup seen → NoDup (discover seen ancs).
Proof.
  induction ancs as [|[a|] ancs IH]; intros seen Hnd; simpl; [done| |by apply IH].
  apply IH. case_bool_decide as Hin; [done|].
  apply NoDup_app. split_and!; [done| |apply NoDup_singleton].
  intros x Hx ->%list_elem_of_singleton. done.
Qed.

Section GroupFacts.
Context (line_text speaker_of : Element → string).
Context (nodes : list node) (pm : gmap path node).
Context (initial_folio initial_col : string).

Local Abbreviation body :=
  (loop_body line_text speaker_of nodes pm initial_folio initial_col).

Lemma loop_body_group st seen l :
  numbered st seen →
  let seen' := discover seen [find_group_for_node pm l] in
  numbered (body st l) seen'
  ∧ ∃ r, lines (body st l) = lines st ++ [r]
         ∧ group_id_matches seen' (find_group_for_node pm l) (lg r)
         ∧ lg r ≠ "0".
Proof.
  intros [Hngi Hmap]. unfold loop_body, assign_group.
  destruct (find_group_for_node pm l) as [a|]; simpl.
  - destruct (ancestor_group_map st !! a.1) as [n|] eqn:Hn; simpl.
    + apply Hmap in Hn as Hi. destruct Hi as (i & -> & Hi).
      rewrite bool_decide_eq_true_2 by (by eapply list_elem_of_lookup_2).
      split; [done|]. eexists; split_and!; [done| |apply str_S_not_zero].
      simpl. by exists i.
    + assert (a.1 ∉ seen) as Hni.
      { intros [i Hi]%list_elem_of_lookup_1.
        assert (ancestor_group_map st !! a.1 = Some (S i)) as Hc
          by (apply Hmap; eauto). congruence. }
      rewrite bool_decide_eq_false_2 by done.
      split; [|eexists; split_and!; [done| |apply str_S_not_zero]].
      * split; simpl; [rewrite length_app; simpl; lia|].
        intros p n. destruct (decide (a.1 = p)) as [<-|Hne].
        -- rewrite lookup_insert_eq. split.
           ++ intros [= <-]. exists (next_group_id st). split; [done|].
              rewrite Hngi. by apply list_lookup_middle.
           ++ intros (i & -> & Hi). f_equal. f_equal.
              apply lookup_app_Some in Hi as [Hi|[Hge Hi]].
              ** exfalso. apply Hni. by eapply list_elem_of_lookup_2.
              ** apply list_lookup_singleton_Some in Hi as [? _]. lia.
        -- rewrite lookup_insert_ne by done. rewrite Hmap.
           split; intros (i & -> & Hi); exists i; (split; [done|]).
           ++ by apply lookup_app_l_Some.
           ++ apply lookup_app_Some in Hi as [Hi|[_ Hi]]; [done|].
              apply list_lookup_singleton_Some in Hi as [_ ?]. done.
      * simpl. exists (next_group_id st). split; [|done].
        rewrite Hngi. by apply list_lookup_middle.
  - split; [done|]. eexists; split_and!; done.
Qed.

Lemma loop_group ls : ∀ st seen k l,
  numbered st seen → ls !! k = Some l →
  ∃ r, lines (foldl body st ls) !! (length (lines st) + k) = Some r
       ∧ group_id_matches (discover seen (find_group_for_node pm <$> ls))
           (find_group_for_node pm l) (lg r)
       ∧ lg r ≠ "0".
Proof.
  induction ls as [|l' ls IH]; intros st seen k l Hnum Hk; [done|].
  destruct (loop_body_group st seen l' Hnum) as (Hnum' & r & Hl & Hg & Hz).
  simpl in Hnum', Hg. rewrite fmap_cons. simpl.
  destruct k as [|k]; simplify_eq/=.
  - exists r. rewrite Nat.add_0_r. split_and!; [| |done].
    + eapply prefix_lookup_Some; [|apply loop_lines_prefix].
      rewrite Hl. by apply list_lookup_middle.
    + destruct (find_group_for_node pm l) as [a|]; simpl in *; [|done].
      destruct Hg as (i & Hi & ->). exists i. split; [|done].
      eapply prefix_lookup_Some; [done|apply discover_prefix].
  - destruct (IH (body st l') _ k l Hnum' Hk) as (r' & Hlk & Hg' & Hz').
    exists r'. rewrite Hl, length_app in Hlk. simpl in Hlk.
    replace (length (lines st) + S k) with (length (lines st) + 1 + k) by lia.
    split_and!; [done| |done].
    by destruct (find_group_for_node pm l') as [a'|].
Qed.

End GroupFacts.

Lemma numbered_initial : numbered initial_state [].
Proof.
  split; [done|]. intros p n. simpl. rewrite lookup_empty.
  split; [done|]. by intros (i & _ & ?).
Qed.

(** *** The index and the containers, by paths *)

Lemma doc_nodes_index_root root :
  doc_nodes root = ET.iter_at (index_root root).1 (index_root root).2.
Proof. unfold doc_nodes, index_root. by destruct (find_desc "div" [] root). Qed.

Lemma index_root_in_iter root : index_root root ∈ ET.iter root.
Proof.
  unfold index_root, find_desc.
  destruct (head _) as [d|] eqn:Hd; simpl.
  - apply (findall_desc_in_iter "div").
    destruct (findall_desc "div" [] root); simplify_eq/=. by left.
  - apply iter_at_self.
Qed.

(** The index holds the elements of the fragment that sit at or below
    its root. *)
Lemma doc_nodes_elem root (n : node) :
  n ∈ doc_nodes root
  ↔ n ∈ ET.iter root ∧ (index_root root).1 `prefix_of` n.1.
Proof.
  split.
  - intros Hn. split; [by apply doc_nodes_in_iter|].
    rewrite doc_nodes_index_root in Hn. by eapply iter_at_prefix.
  - intros [Hn [q Hq]]. rewrite doc_nodes_index_root.
    pose proof (index_root_in_iter root) as Hd.
    apply iter_at_node_at in Hn as (qn & Hqn & Hatn).
    apply iter_at_node_at in Hd as (qd & Hqd & Hatd).
    simpl in Hqn, Hqd. subst qn qd.
    rewrite Hq, node_at_app, Hatd in Hatn. simpl in Hatn.
    destruct n as [pn en]. simpl in *. subst pn.
    by apply node_at_iter_at.
Qed.

Lemma group_above_index root (a l : node) :
  group_above root a l
  ↔ a ∈ doc_nodes root ∧ is_group a.2 ∧ proper_ancestor a l.
Proof. unfold group_above. rewrite doc_nodes_elem. tauto. Qed.

(** The parent-chain walk finds the container of the line. *)
Lemma find_group_for_node_container root (l a : node) :
  l ∈ ET.iter root →
  find_group_for_node (parent_map (doc_nodes root)) l = Some a
  ↔ container_of root l a.
Proof.
  intros Hl. split.
  - intros Ha. pose proof (find_group_for_node_found _ _ _ Ha) as Hfound.
    split; [by apply group_above_index|].
    intros b (Hb & Hgb & Hab)%group_above_index.
    destruct (find_group_for_node_nearest root b l Hl Hb Hgb Hab)
      as (a' & Ha' & Hpre).
    by simplify_eq.
  - intros [Ha Hnear].
    pose proof Ha as (Hin & Hga & Haa)%group_above_index.
    destruct (find_group_for_node_nearest root a l Hl Hin Hga Haa)
      as (a' & Ha' & Hpre).
    rewrite Ha'. f_equal.
    pose proof (find_group_for_node_found _ _ _ Ha') as Hfound.
    apply group_above_index in Hfound. apply Hnear in Hfound as Hpre'.
    assert (a'.1 = a.1) as Hpath.
    { destruct Hpre as [q1 H1], Hpre' as [q2 H2].
      rewrite H1, <-app_assoc in H2.
      rewrite <-(app_nil_r a.1) in H2 at 1.
      apply app_inv_head in H2. symmetry in H2.
      apply app_eq_nil in H2 as [-> _]. by rewrite app_nil_r in H1. }
    destruct Ha as [Hia _], Hfound as [Hia' _].
    by apply (same_path_same_node _ _ _ (iter_at_NoDup _ _) Hia' Hia).
Qed.

Lemma find_group_for_node_no_container root (l : node) :
  l ∈ ET.iter root →
  find_group_for_node (parent_map (doc_nodes root)) l = None
  ↔ ∀ b, ¬ group_above root b l.
Proof.
  intros Hl. split.
  - intros Hnone b (Hb & Hgb & Hab)%group_above_index.
    destruct (find_group_for_node_nearest root b l Hl Hb Hgb Hab)
      as (a' & Ha' & _).
    congruence.
  - intros Hno.
    destruct (find_group_for_node _ l) as [a|] eqn:Ha; [|done].
    apply find_group_for_node_found in Ha. apply group_above_index in Ha.
    by destruct (Hno a).
Qed.

(** *** The discovery order *)

Lemma discover_app xs : ∀ ys seen,
  discover seen (xs ++ ys) = discover (discover seen xs) ys.
Proof.
  induction xs as [|[a|] xs IH]; intros ys seen; simpl; [done|apply IH..].
Qed.

Lemma discover_elem ancs : ∀ seen p,
  p ∈ discover seen ancs →
  p ∈ seen ∨ ∃ k a, ancs !! k = Some (Some a) ∧ a.1 = p.
Proof.
  induction ancs as [|[a|] ancs IH]; intros seen p; simpl; [by left| |].
  - intros [Hp|(k & b & Hk & Hb)]%IH.
    + case_bool_decide; [by left|].
      apply elem_of_app in Hp as [?| ->%list_elem_of_singleton]; [by left|].
      right. by exists 0, a.
    + right. by exists (S k), b.
  - intros [Hp|(k & b & Hk & Hb)]%IH; [by left|].
    right. by exists (S k), b.
Qed.

(** A container of rank [i] is first reached after every container of
    smaller rank has been reached. *)
Lemma discover_earlier ancs k (a : node) i j q :
  ancs !! k = Some (Some a) →
  discover [] ancs !! i = Some a.1 →
  discover [] ancs !! j = Some q →
  j < i →
  ∃ k' b, k' < k ∧ ancs !! k' = Some (Some b) ∧ b.1 = q.
Proof.
  intros Hk Hi Hj Hlt.
  pose proof (discover_NoDup ancs [] NoDup_nil_2) as Hnd.
  rewrite <-(take_drop_middle ancs k (Some a) Hk) in Hi, Hj, Hnd.
  rewrite discover_app in Hi, Hj, Hnd. simpl in Hi, Hj, Hnd.
  set (s0 := discover [] (take k ancs)) in *.
  assert (q ∈ s0) as Hq.
  { case_bool_decide as Hin.
    - apply list_elem_of_lookup_1 in Hin as [i' Hi'].
      pose proof (prefix_lookup_Some _ _ _ _ Hi'
                    (discover_prefix (drop (S k) ancs) s0)) as Hi''.
      assert (i' = i) as -> by (by eapply NoDup_lookup).
      destruct (lookup_lt_is_Some_2 s0 j) as [q' Hq'];
        [apply lookup_lt_Some in Hi'; lia|].
      pose proof (prefix_lookup_Some _ _ _ _ Hq'
                    (discover_prefix (drop (S k) ancs) s0)) as Hq''.
      assert (q' = q) as -> by congruence.
      by eapply list_elem_of_lookup_2.
    - assert ((s0 ++ [a.1]) !! length s0 = Some a.1) as Hi'
        by (by apply list_lookup_middle).
      pose proof (prefix_lookup_Some _ _ _ _ Hi'
                    (discover_prefix (drop (S k) ancs) _)) as Hi''.
      assert (length s0 = i) as Hlen by (by eapply NoDup_lookup).
      destruct (lookup_lt_is_Some_2 s0 j) as [q' Hq']; [lia|].
      assert ((s0 ++ [a.1]) !! j = Some q') as Hq1
        by (by apply lookup_app_l_Some).
      pose proof (prefix_lookup_Some _ _ _ _ Hq1
                    (discover_prefix (drop (S k) ancs) _)) as Hq''.
      assert (q' = q) as -> by congruence.
      by eapply list_elem_of_lookup_2. }
  apply discover_elem in Hq as [Hq|(k' & b & Hk' & Hb)];
    [by apply elem_of_nil in Hq|].
  apply lookup_take_Some in Hk' as [Hk' Hlt'].
  by exists k', b.
Qed.

(** C5 (as amended): for both extraction functions the group field
    follows the order in which a pass over the lines, in document
    order, first reaches each grouping container of the node-order
    index.  The container of a line is the nearest element tagged lg,
    p or sp that lies strictly above the line and at or below the root
    of the index (the first section element below the root of the
    fragment, the root itself when there is none).  A line with no
    such element above it carries the empty string.  A line with a
    container carries the decimal numeral of a positive number; two
    lines carry the same numeral exactly when they have the same
    container; every smaller positive numeral is carried by an earlier
    line, so that the first container reached is numbered 1, the
    second 2, and so on; and when no earlier line has a container the
    numeral is 1.  No line carries the numeral zero. *)
Theorem group_ids_in_discovery_order extract root seed_folio seed_col k l :
  extract ∈ extractors →
  line_elements root !! k = Some l →
  let rs := extract root seed_folio seed_col in
  ∃ r, rs !! k = Some r
    ∧ lg r ≠ "0"
    ∧ ((∀ b, ¬ group_above root b l) → lg r = "")
    ∧ ((∃ b, group_above root b l) → ∃ a, container_of root l a)
    ∧ ∀ a, container_of root l a →
        ∃ i, lg r = Py.str (S i)
          ∧ (∀ j, j < i →
               ∃ k' r', k' < k ∧ rs !! k' = Some r' ∧ lg r' = Py.str (S j))
          ∧ (∀ k' l' a' r',
               line_elements root !! k' = Some l' →
               container_of root l' a' → rs !! k' = Some r' →
               (lg r' = lg r ↔ a'.1 = a.1))
          ∧ ((∀ k' l' b, k' < k → line_elements root !! k' = Some l' →
                         ¬ group_above root b l') →
             lg r = "1").
Proof.
  intros (line_text & speaker_of & ->)%extractors_generic Hl rs.
  set (pm := parent_map (doc_nodes root)).
  set (found := find_group_for_node pm <$> line_elements root).
  set (order := discover [] found).
  assert (NoDup order) as Hnd by apply discover_NoDup, NoDup_nil_2.
  assert (∀ k l, line_elements root !! k = Some l →
            l ∈ ET.iter root
            ∧ ∃ r, rs !! k = Some r
                   ∧ group_id_matches order (find_group_for_node pm l) (lg r)
                   ∧ lg r ≠ "0") as Hrec.
  { intros k0 l0 Hl0. split; [by eapply line_elements_in_iter|].
    exact (loop_group line_text speaker_of (doc_nodes root) pm seed_folio
             seed_col (line_elements root) initial_state [] k0 l0
             numbered_initial Hl0). }
  destruct (Hrec k l Hl) as (Hiter & r & Hr & Hg & Hz).
  exists r. split_and!; [done..| | |].
  - intros Hno.
    apply (proj2 (find_group_for_node_no_container root l Hiter)) in Hno.
    fold pm in Hno. by rewrite Hno in Hg.
  - intros [b Hb].
    destruct (find_group_for_node pm l) as [a|] eqn:Ha.
    + exists a. by apply (proj1 (find_group_for_node_container root l a Hiter)).
    + pose proof (proj1 (find_group_for_node_no_container root l Hiter) Ha)
        as Hno.
      by destruct (Hno b).
  - intros a Ha.
    pose proof (proj2 (find_group_for_node_container root l a Hiter) Ha) as Hfa.
    fold pm in Hfa. rewrite Hfa in Hg. destruct Hg as (i & Hi & Hlg).
    assert (∀ j, j < i →
              ∃ k' r', k' < k ∧ rs !! k' = Some r' ∧ lg r' = Py.str (S j))
      as Hsmaller.
    { intros j Hj.
      destruct (lookup_lt_is_Some_2 order j) as [q Hq];
        [apply lookup_lt_Some in Hi; lia|].
      assert (found !! k = Some (Some a)) as Hk
        by (unfold found; by rewrite list_lookup_fmap, Hl, <-Hfa).
      destruct (discover_earlier found k a i j q Hk Hi Hq Hj)
        as (k' & b & Hk' & Hb & <-).
      unfold found in Hb. rewrite list_lookup_fmap in Hb.
      destruct (line_elements root !! k') as [l'|] eqn:Hl'; simplify_eq/=.
      destruct (Hrec k' l' Hl') as (_ & r' & Hr' & Hg' & _).
      rewrite Hb in Hg'. destruct Hg' as (i' & Hi' & Hlg').
      exists k', r'. split_and!; [done..|].
      by rewrite Hlg', (NoDup_lookup _ _ _ _ Hnd Hi' Hq). }
    exists i. split_and!; [done..| |].
    + intros k' l' a' r' Hl' Ha' Hr'.
      destruct (Hrec k' l' Hl') as (Hiter' & r'' & Hr'' & Hg' & _).
      apply (proj2 (find_group_for_node_container root l' a' Hiter')) in Ha'.
      fold pm in Ha'. rewrite Ha' in Hg'. destruct Hg' as (i' & Hi' & Hlg').
      assert (r'' = r') as -> by congruence.
      rewrite Hlg, Hlg'. split.
      * intros Heq%str_inj. congruence.
      * intros Heq. rewrite Heq in Hi'.
        by rewrite (NoDup_lookup _ _ _ _ Hnd Hi' Hi).
    + intros Hnone. destruct i as [|i]; [by rewrite Hlg|].
      destruct (Hsmaller 0) as (k' & r' & Hk' & Hr' & Hlg'); [lia|].
      destruct (lookup_lt_is_Some_2 (line_elements root) k') as [l' Hl'];
        [apply lookup_lt_Some in Hl; lia|].
      destruct (Hrec k' l' Hl') as (Hiter' & r'' & Hr'' & Hg' & _).
      assert (r'' = r') as -> by congruence.
      assert (find_group_for_node pm l' = None) as Hn.
      { apply (proj2 (find_group_for_node_no_container root l' Hiter')).
        intros b. by apply (Hnone k' l' b). }
      rewrite Hn in Hg'. simpl in Hg'. rewrite Hg' in Hlg'. done.
Qed.

Lemma group_ids_in_discovery_order_witness :
  ∃ r, Helpers.extract_lines_from_xml scenario_tei "" "" !! 0 = Some r
       ∧ lg r = "1".
Proof.
  set (l := ([1; 0], elem (tei "l") [(XML_ID, "l1")] (Some "Foo") []) : node).
  set (a := ([1], elem (tei "lg") [] None
                    [ elem (tei "l") [(XML_ID, "l1")] (Some "Foo") [];
                      elem (tei "l") [(XML_ID, "l2")] (Some "Bar") [] ])
            : node).
  destruct (group_ids_in_discovery_order Helpers.extract_lines_from_xml
              scenario_tei "" "" 0 l
              ltac:(by left) ltac:(vm_compute; reflexivity))
    as (r & Hr & _ & _ & _ & Hcont).
  exists r. split; [exact Hr|].
  destruct (Hcont a) as (i & _ & _ & _ & Hfirst).
  - split.
    + split_and!.
      * apply list_elem_of_In. vm_compute. tauto.
      * by exists [1].
      * left. vm_compute. reflexivity.
      * by exists [0].
    + intros b (_ & _ & _ & q & Hq & Hpath).
      change ([1; 0] = b.1 ++ q) in Hpath.
      destruct b.1 as [|x [|y p]]; simplify_eq/=.
      * by apply prefix_nil.
      * done.
      * by destruct p.
  - apply Hfirst. intros k' l' b Hk'. lia.
Defined.

(** C5 (as stated) fails: the verse group that the pass over the lines
    reaches first lies outside the index; it is never numbered, its
    line carries the empty string, and the second verse group reached
    is numbered 1. *)
Lemma group_outside_index_not_numbered :
  line_elements group_before_div_doc
    = [ ([0; 0], line_pre); ([1; 0; 0], line_in) ]
  ∧ ([0], group_pre) ∈ ET.iter group_before_div_doc
  ∧ is_group group_pre
  ∧ proper_ancestor ([0], group_pre) ([0; 0], line_pre)
  ∧ lg <$> Helpers.extract_lines_from_xml group_before_div_doc "" ""
    = [""; "1"]
  ∧ lg <$> ProcessDiv.extract_lines_from_xml group_before_div_doc "" ""
    = [""; "1"].
Proof.
  split_and!.
  - vm_compute; reflexivity.
  - apply list_elem_of_In. vm_compute. tauto.
  - left. vm_compute. reflexivity.
  - by exists [0].
  - vm_compute; reflexivity.
  - vm_compute; reflexivity.
Qed.

(** A line under no container, under a verse group, under a
    paragraph of that group, and under the verse group again. *)
Example group_ids_example :
  lg <$> Helpers.extract_lines_from_xml grouped_doc "" "" = [""; "1"; "2"; "1"].
Proof. vm_compute. reflexivity. Qed.

(** ** The seed scan *)

(** The joint scan started with values already found keeps them, and
    otherwise looks for each marker kind on its own, passing over
    markers whose effective value is empty. *)
Lemma joint_scan_spec prevs : ∀ folio col,
  joint_scan prevs folio col
  = (if Py.truthy (Some folio) then folio
     else first_nonempty_value is_page_break prevs,
     if Py.truthy (Some col) then col
     else first_nonempty_value is_column_marker prevs).
Proof.
  induction prevs as [|prev rest IH]; intros folio col.
  - simpl. by destruct folio, col.
  - cbn [joint_scan first_nonempty_value].
    unfold is_page_break, is_column_marker.
    destruct (String.eqb (ET.tag prev.2) (tei "pb")),
             (String.eqb (ET.tag prev.2) (tei "cb")),
             (String.eqb (ET.tag prev.2) (tei "milestone")),
             (bool_decide (ET.get prev.2 "unit" = Some "column")),
             (effective_value prev.2) as [|v0 v],
             folio as [|f0 f], col as [|c0 c];
      cbn [Py.truthy negb andb orb]; rewrite ?IH; reflexivity.
Qed.

(** C10 (as amended): for every serialized section and source
    document, the joint backward scan of the seed extraction returns
    the same pair as two independent backward scans, each stopping at
    its own first marker whose effective value is not empty. *)
Theorem joint_scan_is_independent_nonempty (div_node_xml : string)
  (source_root : Element) :
  get_folio_and_col_at_div div_node_xml source_root
  = independent_first_nonempty div_node_xml source_root.
Proof.
  unfold get_folio_and_col_at_div, independent_first_nonempty, at_div.
  destruct (search_xml_id div_node_xml) as [div_id|]; [|done].
  destruct (find_div_in_source div_id source_root) as [d|]; [|done].
  destruct (ET.index d (ET.iter source_root)) as [idx|]; [|done].
  apply joint_scan_spec.
Qed.

(** When every marker met carries a non-empty effective value, stopping
    at the first marker and stopping at the first non-empty one are the
    same scan. *)
Lemma first_match_nonempty is_marker prevs :
  Forall (λ n : node, is_marker n.2 = true → effective_value n.2 ≠ "") prevs →
  first_nonempty_value is_marker prevs = first_match_value is_marker prevs.
Proof.
  induction 1 as [|n prevs Hn _ IH]; simpl; [done|].
  destruct (is_marker n.2); simpl; [|done].
  destruct (effective_value n.2) as [|c v]; simpl; [|done].
  by destruct Hn.
Qed.

(** C10 (as stated) fails: when the page break nearest to the section
    has no attributes, the joint scan goes on to an earlier page break
    while a scan that stops at its first match returns the empty
    string. *)
Lemma joint_scan_passes_bare_page_break :
  get_folio_and_col_at_div d1_xml two_pb_source = ("1", "")
  ∧ independent_first_match d1_xml two_pb_source = ("", "")
  ∧ get_folio_and_col_at_div d1_xml two_pb_source
    ≠ independent_first_match d1_xml two_pb_source.
Proof. split_and!; [vm_compute; reflexivity..|]. vm_compute. discriminate. Qed.

(** ** The folio sort key *)

Lemma leading_digits_first s c :
  is_digit c = true →
  first_integer_substring (String c s) = Some (leading_digits (String c s)).
Proof. intros Hc. simpl. by rewrite Hc. Qed.

(** On a field that starts with a digit the key is the value of the
    first number of the field. *)
Lemma sort_key_leading_digit c s :
  is_digit c = true →
  simple_folio_sort_key (Some (String c s)) = first_integer_key (Some (String c s)).
Proof.
  intros Hc. unfold simple_folio_sort_key, first_integer_key, re_match_digits.
  simpl. by rewrite Hc.
Qed.

(** C8: the key is the value of the digits the field starts with, which
    orders 3 before 12-15; a field whose first number is not at its
    very start gets the key of a field without number, against the
    documentation of the function. *)
Theorem sort_key_misses_inner_number :
  simple_folio_sort_key (Some "f5") = 999999%Z
  ∧ first_integer_key (Some "f5") = 5%Z
  ∧ sort_group [Some "12-15"; Some "f5"; Some "3"]
    = [Some "3"; Some "12-15"; Some "f5"]
  ∧ sort_by first_integer_key [Some "12-15"; Some "f5"; Some "3"]
    = [Some "3"; Some "f5"; Some "12-15"]
  ∧ sort_group [Some "12-15"; Some "3"] = [Some "3"; Some "12-15"]
  ∧ (∀ c s, is_digit c = true →
       simple_folio_sort_key (Some (String c s))
       = first_integer_key (Some (String c s))).
Proof.
  split_and!; [vm_compute; reflexivity..|]. apply sort_key_leading_digit.
Qed.

Lemma sort_key_misses_inner_number_witness :
  simple_folio_sort_key (Some "12-15") = first_integer_key (Some "12-15").
Proof.
  apply (proj2 (proj2 (proj2 (proj2 (proj2 sort_key_misses_inner_number))))
           "1"%char "2-15").
  reflexivity.
Defined.

(** ** Metadata loading *)

Lemma truthy_Some_false (s : string) : Py.truthy (Some s) = false ↔ s = "".
Proof. by destruct s. Qed.

Lemma row_id_set_state state row : row_id (set_state state row) = row_id row.
Proof. unfold row_id, set_state; simpl. by rewrite lookup_insert_ne. Qed.

(** The two ways in which one row leaves the loop body normally. *)
Lemma load_row_inl i row md log md' log' :
  load_row i row md log = inl (md', log') →
  (row_id row = "" ∧ md' = md ∧ log' = log ++ [warning i])
  ∨ (row_id row ≠ "" ∧ log' = log
     ∧ ∃ state, md' = <[row_id row := set_state state row]> md).
Proof.
  unfold load_row, row_id.
  destruct (cells row !! "id") as [[ident|]|] eqn:Hid;
    cbn [from_option id]; [| done |].
  - destruct (Py.truthy (Some (Py.strip ident))) eqn:Ht.
    + destruct (default (Some "incomplete") (cells row !! "state"))
        as [state|]; [|done].
      intros [= <- <-]. right. split_and!; [|done|by eexists].
      intros Heq. apply truthy_Some_false in Heq. congruence.
    + intros [= <- <-]. left. by apply truthy_Some_false in Ht.
  - intros [= <- <-]. by left.
Qed.

Lemma load_rows_inv fieldnames rows : ∀ i md0 log0 log md,
  load_rows fieldnames i rows md0 log0 = (log, inl md) →
  log0 `prefix_of` log
  ∧ (∀ key, is_Some (md0 !! key) → is_Some (md !! key))
  ∧ rows_loaded (dict_row fieldnames
                   <$> filter (λ row : list string, row ≠ []) rows)
                i log md0 md.
Proof.
  induction rows as [|row rows IH]; intros i md0 log0 log md.
  - simpl. intros [= <- <-]. split_and!; [done..|]. split; [done|]. by left.
  - destruct row as [|c row].
    { simpl. rewrite filter_cons_False by (by intros ?). apply IH. }
    cbn [load_rows]. rewrite filter_cons_True by done. rewrite fmap_cons.
    set (d := dict_row fieldnames (c :: row)).
    destruct (load_row i d md0 log0) as [[md' log']|e] eqn:Hrow; [|done].
    intros (Hpre & Hkeys & Hrows & Hvals)%IH.
    apply load_row_inl in Hrow.
    assert (log0 `prefix_of` log') as Hpre0.
    { destruct Hrow as [(_ & _ & ->)|(_ & -> & _)]; [by apply prefix_app_r|done]. }
    assert (∀ key, is_Some (md0 !! key) → is_Some (md' !! key)) as Hkeys0.
    { destruct Hrow as [(_ & -> & _)|(_ & _ & state & ->)]; [done|].
      intros key Hk. destruct (decide (row_id d = key)) as [<-|Hne].
      - rewrite lookup_insert_eq. by eexists.
      - by rewrite lookup_insert_ne. }
    split_and!; [by etrans|by eauto|]. split.
    + intros [|k] r Hk; simplify_eq/=.
      * rewrite Nat.add_0_r. split.
        -- intros Hid. destruct Hrow as [(_ & _ & ->)|(Hne & _)]; [|done].
           eapply elem_of_prefix; [|exact Hpre].
           apply elem_of_app. right. by left.
        -- intros Hid. apply Hkeys.
           destruct Hrow as [(Heq & _)|(_ & _ & state & ->)]; [done|].
           rewrite lookup_insert_eq. by eexists.
      * replace (i + S k) with (S i + k) by lia. by apply Hrows.
    + intros key v Hv. destruct (Hvals key v Hv) as [Hv'|Hright].
      * destruct Hrow as [(_ & -> & _)|(Hne & _ & state & ->)]; [by left|].
        destruct (decide (row_id d = key)) as [<-|Hkey].
        -- rewrite lookup_insert_eq in Hv'. simplify_eq. right.
           split_and!; [done|apply row_id_set_state|].
           by exists 0, d, state.
        -- rewrite lookup_insert_ne in Hv' by done. by left.
      * right. destruct Hright as (Hne & Hid & k & r & state & Hk & Hr & ->).
        split_and!; [done..|]. by exists (S k), r, state.
Qed.





Section ProcessorFacts.
Context (process_sections : gmap string Row → list string * Z).


End ProcessorFacts.


(** * Properties of the further code *)

(** ** Normalized text *)

Lemma single_spaced_weaken s : ∀ b,
  single_spaced b s = true → single_spaced false s = true.
Proof.
  destruct s as [|c s]; intros b; simpl; [done|].
  destruct (Py.is_space c); [|done].
  destruct b; simpl; [by rewrite andb_false_r|done].
Qed.

Lemma collapse_single_spaced s : ∀ b,
  single_spaced b (Py.collapse_ws_from b s) = true.
Proof.
  induction s as [|c s IH]; intros b; simpl; [done|].
  destruct (Py.is_space c) eqn:Hc.
  - destruct b; [apply IH|]. simpl. by rewrite IH.
  - simpl. by rewrite Hc, IH.
Qed.

Lemma lstrip_single_spaced s : ∀ b,
  single_spaced b s = true → single_spaced true (Py.lstrip s) = true.
Proof.
  induction s as [|c s IH]; intros b; simpl; [done|].
  destruct (Py.is_space c) eqn:Hc.
  - intros (_ & Hs)%andb_prop. by apply (IH true).
  - intros Hs. simpl. by rewrite Hc.
Qed.

Lemma single_spaced_cons b c s :
  single_spaced b (String c s)
  = if Py.is_space c
    then Ascii.eqb c " " && negb b && single_spaced true s
    else single_spaced false s.
Proof. done. Qed.

Lemma ends_with_space_cons c d s :
  ends_with_space (String c (String d s)) = ends_with_space (String d s).
Proof. done. Qed.

Lemma rstrip_cons c s :
  Py.rstrip (String c s)
  = match Py.rstrip s with
    | EmptyString => if Py.is_space c then EmptyString else String c EmptyString
    | r => String c r
    end.
Proof. done. Qed.

Lemma rstrip_single_spaced s : ∀ b,
  single_spaced b s = true →
  single_spaced b (Py.rstrip s) = true ∧ ends_with_space (Py.rstrip s) = false.
Proof.
  induction s as [|c s IH]; intros b; [done|].
  rewrite single_spaced_cons, rstrip_cons.
  destruct (Py.is_space c) eqn:Hc.
  - intros ((Heq & Hb)%andb_prop & Hs)%andb_prop.
    destruct (IH true Hs) as [Hr He].
    destruct (Py.rstrip s) as [|d r]; [done|].
    rewrite single_spaced_cons, ends_with_space_cons, Hc, Heq, Hb, Hr. done.
  - intros Hs. destruct (IH false Hs) as [Hr He].
    destruct (Py.rstrip s) as [|d r].
    + rewrite single_spaced_cons, Hc. simpl. by rewrite Hc.
    + rewrite single_spaced_cons, ends_with_space_cons, Hc, Hr. done.
Qed.

Lemma collapse_fixed s : ∀ b,
  single_spaced b s = true → Py.collapse_ws_from b s = s.
Proof.
  induction s as [|c s IH]; intros b; simpl; [done|].
  destruct (Py.is_space c) eqn:Hc.
  - intros ((Heq & Hb)%andb_prop & Hs)%andb_prop.
    apply negb_true_iff in Hb as ->. apply Ascii.eqb_eq in Heq as ->.
    by rewrite (IH true Hs).
  - intros Hs. by rewrite (IH false Hs).
Qed.

Lemma lstrip_fixed s : single_spaced true s = true → Py.lstrip s = s.
Proof.
  destruct s as [|c s]; simpl; [done|].
  destruct (Py.is_space c); [|done]. by rewrite andb_false_r.
Qed.

Lemma rstrip_fixed s : ends_with_space s = false → Py.rstrip s = s.
Proof.
  induction s as [|c s IH]; [done|].
  destruct s as [|d s].
  - simpl. by intros ->.
  - rewrite ends_with_space_cons, rstrip_cons. intros He. by rewrite (IH He).
Qed.

(** X1: the text of a line as [helpers.py] stores it is normalized: it
    neither starts nor ends with white space and its only white space
    is single spaces between other characters; and normalizing a text
    that is already normalized changes nothing. *)
Theorem line_text_normalized :
  (∀ l, is_normalized (Helpers.line_text l) = true)
  ∧ (∀ s, is_normalized (normalize_ws s) = true)
  ∧ (∀ s, is_normalized s = true → normalize_ws s = s).
Proof.
  assert (∀ s, is_normalized (normalize_ws s) = true) as Hnorm.
  { intros s. unfold is_normalized, normalize_ws, Py.strip, Py.collapse_ws.
    pose proof (collapse_single_spaced s false) as H1.
    apply lstrip_single_spaced in H1.
    apply rstrip_single_spaced in H1 as [-> ->]. done. }
  split_and!; [intros l; apply Hnorm|exact Hnorm|].
  intros s (Hs & He%negb_true_iff)%andb_prop.
  unfold normalize_ws, Py.strip, Py.collapse_ws.
  rewrite (collapse_fixed s false) by (by eapply single_spaced_weaken).
  by rewrite lstrip_fixed, rstrip_fixed.
Qed.

Lemma line_text_normalized_witness :
  normalize_ws "Li rois dit" = "Li rois dit".
Proof.
  apply (proj2 (proj2 line_text_normalized)). reflexivity.
Defined.

(** ** Tags and their local names *)

Lemma rsplit1_last_app c a b :
  Py.contains c b = false → Py.rsplit1_last c (a +:+ String c b) = b.
Proof.
  intros Hb. induction a as [|x a IH]; simpl.
  - by rewrite Hb, Ascii.eqb_refl.
  - change ((fix append (s1 s2 : string) {struct s1} : string :=
               match s1 with
               | EmptyString => s2
               | String c0 s1' => String c0 (append s1' s2)
               end) a (String c b)) with (a +:+ String c b).
    assert (Py.contains c (a +:+ String c b) = true) as ->; [|exact IH].
    clear IH. induction a as [|y a IHa]; simpl.
    + by rewrite Ascii.eqb_refl.
    + destruct (Ascii.eqb y c); [done|exact IHa].
Qed.

Lemma contains_app_r c a b :
  Py.contains c b = true → Py.contains c (a +:+ b) = true.
Proof.
  intros Hb. induction a as [|x a IH]; simpl; [done|].
  destruct (Ascii.eqb x c); [done|exact IH].
Qed.

(** X2: a tag is recognised by its local name whatever its namespace:
    the local name of a qualified tag is what follows the closing
    brace, and a tag without brace is its own local name. *)
Theorem ns_tag_local_name (ns name : string) :
  Py.contains "}" name = false →
  ns_tag ("{" +:+ ns +:+ "}" +:+ name) = name ∧ ns_tag name = name.
Proof.
  intros Hname. split; unfold ns_tag; [|by rewrite Hname].
  change ("{" +:+ ns +:+ "}" +:+ name)
    with (String "{" ns +:+ String "}" name).
  rewrite contains_app_r by (simpl; done).
  by apply rsplit1_last_app.
Qed.

Lemma ns_tag_local_name_witness :
  ns_tag (tei "pb") = "pb" ∧ ns_tag "pb" = "pb".
Proof. apply (ns_tag_local_name TEI_NS "pb"). reflexivity. Defined.

(** ** The renderer on text without editorial markup *)

Lemma append_assoc (a b c : string) : (a +:+ b) +:+ c = a +:+ (b +:+ c).
Proof.
  induction a as [|x a IH]; [done|].
  change (String x ((a +:+ b) +:+ c) = String x (a +:+ (b +:+ c))).
  by rewrite IH.
Qed.

Lemma join_app (xs ys : list string) :
  Py.join (xs ++ ys) = Py.join xs +:+ Py.join ys.
Proof.
  induction xs as [|x xs IH]; [done|].
  change (x +:+ Py.join (xs ++ ys) = (x +:+ Py.join xs) +:+ Py.join ys).
  by rewrite IH, append_assoc.
Qed.

Lemma join_part_if_any (o : option string) :
  Py.join (part_if_any o) = Py.or_str o "".
Proof.
  destruct o as [[|c s]|]; simpl; [done| |done].
  by rewrite append_empty_r.
Qed.

Lemma itertext_unfold e :
  ET.itertext e
  = part_if_any (ET.text e)
    ++ concat (map (λ c, ET.itertext c ++ part_if_any (ET.tail c))
                   (ET.children e)).
Proof. by destruct e. Qed.

Lemma render_plain_unfold t a tx tl cs :
  bool_decide (ns_tag t ∈ MARKUP_TAGS) = false →
  get_text_with_markup (ET.Elem t a tx tl cs)
  = Py.join (part_if_any tx ++ map get_text_with_markup cs ++ part_if_any tl).
Proof.
  intros Ht. apply bool_decide_eq_false in Ht.
  assert (∀ x, x ∈ MARKUP_TAGS → String.eqb (ns_tag t) x = false) as Hne.
  { intros x Hx. apply String.eqb_neq. intros Heq. apply Ht. by rewrite Heq. }
  cbn [get_text_with_markup].
  rewrite !Hne by (unfold MARKUP_TAGS; set_solver). done.
Qed.

(** X3: on an element whose subtree carries none of the tags ex, add,
    supplied, del, surplus and gap, the renderer returns the
    concatenation of the text nodes of the element, as [itertext]
    yields them, followed by the tail of the element. *)
Theorem render_without_markup (e : Element) :
  markup_free e = true →
  get_text_with_markup e
  = Py.join (ET.itertext e) +:+ Py.or_str (ET.tail e) "".
Proof.
  induction e as [t a tx tl cs IH] using Element_ind.
  cbn [markup_free].
  intros (Ht%negb_true_iff & Hcs)%andb_prop.
  rewrite render_plain_unfold by done.
  rewrite itertext_unfold. cbn [ET.text ET.children ET.tail].
  rewrite !join_app, join_part_if_any, append_assoc.
  f_equal. f_equal; [|apply join_part_if_any].
  clear Ht. induction IH as [|c cs Hc _ IHcs]; [done|].
  cbn [forallb] in Hcs. apply andb_prop in Hcs as [Hm Hcs].
  cbn [map concat].
  change (Py.join (get_text_with_markup c :: map get_text_with_markup cs))
    with (get_text_with_markup c +:+ Py.join (map get_text_with_markup cs)).
  rewrite (Hc Hm), (IHcs Hcs), !join_app, join_part_if_any. done.
Qed.

Lemma render_without_markup_witness :
  get_text_with_markup plain_line = "Li rois!  dit".
Proof.
  rewrite (render_without_markup plain_line); reflexivity.
Defined.



(** ** Column resolution *)

Lemma scan_col_cons seed prev rest :
  scan_col seed (prev :: rest)
  = if is_col_marker prev.2 then marker_value prev.2 seed
    else scan_col seed rest.
Proof.
  unfold is_col_marker. cbn [scan_col].
  destruct (String.eqb (ns_tag (ET.tag prev.2)) "cb"); [done|].
  by destruct (String.eqb (ns_tag (ET.tag prev.2)) "milestone"),
             (bool_decide (ET.get prev.2 "unit" = Some "column")).
Qed.

Lemma scan_col_none seed prevs :
  Forall (λ n : node, is_col_marker n.2 = false) prevs →
  scan_col seed prevs = seed.
Proof.
  induction 1 as [|n prevs Hn _ IH]; [done|]. by rewrite scan_col_cons, Hn.
Qed.

Lemma scan_col_nearest seed near m far :
  Forall (λ n : node, is_col_marker n.2 = false) near →
  is_col_marker m.2 = true →
  scan_col seed (near ++ m :: far) = marker_value m.2 seed.
Proof.
  intros Hnear Hm. induction Hnear as [|n near Hn _ IH].
  - simpl app. by rewrite scan_col_cons, Hm.
  - change ((n :: near) ++ m :: far) with (n :: (near ++ m :: far)).
    by rewrite scan_col_cons, Hn.
Qed.

(** X5: in both extraction functions the column of a line is read off
    the nearest column break, or milestone whose unit is the column,
    that precedes the line in the node-order index: its [n] attribute,
    else its identifier, else the seed column; a milestone of another
    unit is passed over; and when the document holds no such marker
    every line gets the seed column. *)
Theorem column_from_nearest_marker extract root seed_folio seed_col :
  extract ∈ extractors →
  (∀ pre m mid l post k,
     doc_nodes root = pre ++ m :: mid ++ l :: post →
     is_col_marker m.2 = true →
     Forall (λ n : node, is_col_marker n.2 = false) mid →
     line_elements root !! k = Some l →
     ∃ r, extract root seed_folio seed_col !! k = Some r
          ∧ col r = marker_value m.2 seed_col)
  ∧ (Forall (λ n : node, is_col_marker n.2 = false) (ET.iter root) →
     Forall (λ r, col r = seed_col) (extract root seed_folio seed_col)).
Proof.
  intros (line_text & speaker_of & ->)%extractors_generic. split.
  - intros pre m mid l post k Hsplit Hm Hmid Hl.
    destruct (extract_lookup line_text speaker_of root seed_folio seed_col
                k l Hl) as (r & Hr & _ & _ & _ & _ & Hc & _).
    exists r. split; [done|]. rewrite Hc. unfold col_at.
    rewrite (preceding_marker _ pre mid post m l (doc_nodes_NoDup root) Hsplit).
    apply scan_col_nearest; [|done]. by apply Forall_rev.
  - intros Hno. apply Forall_lookup. intros k r Hr.
    destruct (extract_record_line line_text speaker_of root seed_folio
                seed_col k r Hr) as (l & _ & _ & -> & _).
    unfold col_at, preceding.
    destruct (ET.index l (doc_nodes root)) as [idx|]; simpl; [|done].
    apply scan_col_none, Forall_rev, Forall_take.
    apply Forall_forall. intros n Hn.
    by apply (proj1 (Forall_forall _ _) Hno), doc_nodes_in_iter.
Qed.

Lemma column_from_nearest_marker_witness :
  (∃ r, Helpers.extract_lines_from_xml column_doc "" "a" !! 1 = Some r
        ∧ col r = "b")
  ∧ Forall (λ r, col r = "a")
      (ProcessDiv.extract_lines_from_xml milestone_doc "" "a").
Proof.
  split.
  - apply (proj1 (column_from_nearest_marker Helpers.extract_lines_from_xml
                    column_doc "" "a" ltac:(by left))
             [([], column_doc)] ([0], cb_b) [([1], line_a)] ([2], line_b) [] 1).
    + vm_compute; reflexivity.
    + vm_compute; reflexivity.
    + repeat constructor.
    + vm_compute; reflexivity.
  - apply (proj2 (column_from_nearest_marker ProcessDiv.extract_lines_from_xml
                    milestone_doc "" "a" ltac:(right; by left))).
    repeat constructor.
Defined.

(** ** The parent map of the index *)

Lemma insert_children_lookup_in (p : node) (ixs : list nat) :
  ∀ (m : gmap path node) k v,
    foldl (λ m' i, <[p.1 ++ [i] := p]> m') m ixs !! k = Some v →
    (v = p ∧ ∃ i, i ∈ ixs ∧ k = p.1 ++ [i]) ∨ m !! k = Some v.
Proof.
  induction ixs as [|i ixs IH]; intros m k v; simpl; [by right|].
  intros [(-> & j & Hj & ->)|Hk]%IH.
  { left. split; [done|]. exists j. split; [by right|done]. }
  destruct (decide (p.1 ++ [i] = k)) as [<-|Hne].
  - rewrite lookup_insert_eq in Hk. left. split; [congruence|].
    exists i. split; [by left|done].
  - rewrite lookup_insert_ne in Hk by done. by right.
Qed.

Lemma parent_map_lookup_child ns k v :
  parent_map ns !! k = Some v →
  v ∈ ns ∧ ∃ i, k = v.1 ++ [i] ∧ i < length (ET.children v.2).
Proof.
  revert k v. induction ns as [|p ns IH] using rev_ind; intros k v.
  - unfold parent_map; simpl. by rewrite lookup_empty.
  - rewrite parent_map_snoc.
    intros [(-> & i & Hi & ->)|Hk]%insert_children_lookup_in.
    + split; [apply elem_of_app; right; by left|].
      exists i. split; [done|]. apply elem_of_seq in Hi. lia.
    + apply IH in Hk as [Hin Hi]. split; [|done]. apply elem_of_app. by left.
Qed.

Lemma doc_nodes_form root :
  ∃ p0 e0, doc_nodes root = ET.iter_at p0 e0.
Proof.
  unfold doc_nodes. destruct (find_desc _ _ _) as [d|]; by eexists _, _.
Qed.

(** X6: the parent map built over the node-order index has an entry
    exactly for the children of the nodes of the index, each sent to
    the node it is a child of: the first node of the index has no
    entry, and every other node of the index is sent to a node of the
    index of which it is the child at the last position of its path. *)
Theorem parent_map_exact (root : Element) :
  let ns := doc_nodes root in
  let pm := parent_map ns in
  (∀ k v, pm !! k = Some v
          ↔ v ∈ ns ∧ ∃ i, k = v.1 ++ [i] ∧ i < length (ET.children v.2))
  ∧ (∀ n, head ns = Some n → pm !! n.1 = None)
  ∧ (∀ n, n ∈ ns → head ns ≠ Some n →
       ∃ v i, pm !! n.1 = Some v ∧ v ∈ ns ∧ n.1 = v.1 ++ [i]
              ∧ ET.children v.2 !! i = Some n.2).
Proof.
  intros ns pm. subst pm ns.
  destruct (doc_nodes_form root) as (p0 & e0 & Hdoc).
  pose proof (doc_nodes_NoDup root) as Hnd. rewrite Hdoc in *.
  split_and!.
  - intros k v. split; [apply parent_map_lookup_child|].
    intros (Hv & i & -> & Hi). by apply parent_map_child.
  - rewrite iter_at_unfold. intros n [= <-]. simpl.
    destruct (parent_map _ !! p0) as [v|] eqn:Hv; [|done].
    rewrite <-iter_at_unfold in Hv.
    apply parent_map_lookup_child in Hv as (Hin & i & Heq & _).
    apply iter_at_prefix in Hin as [q Hq].
    rewrite Hq, <-app_assoc in Heq. apply (f_equal length) in Heq.
    rewrite !length_app in Heq. simpl in Heq. lia.
  - intros n Hn Hhead.
    destruct (iter_at_prefix _ _ _ Hn) as [q Hq].
    destruct q as [|j q] using rev_ind.
    { exfalso. apply Hhead. rewrite iter_at_unfold. simpl. f_equal.
      rewrite app_nil_r in Hq.
      apply (same_path_same_node (ET.iter_at p0 e0)); [done| |done|done].
      apply iter_at_self. }
    clear IHq. destruct n as [pn x]. simpl in Hq. subst pn.
    destruct (iter_at_parent _ _ _ _ _ Hn) as (y & Hy & Hx).
    exists (p0 ++ q, y), j. simpl. split_and!; [|done|by rewrite app_assoc|done].
    rewrite app_assoc.
    apply (parent_map_child _ (p0 ++ q, y) j Hnd Hy).
    by eapply lookup_lt_Some.
Qed.

Lemma parent_map_exact_witness :
  ∃ v i, parent_map (doc_nodes scenario_tei) !! [1; 1] = Some v
         ∧ v ∈ doc_nodes scenario_tei ∧ [1; 1] = v.1 ++ [i].
Proof.
  destruct (proj2 (proj2 (parent_map_exact scenario_tei))
              ([1; 1], elem (tei "l") [(XML_ID, "l2")] (Some "Bar") []))
    as (v & i & Hv & Hin & Hp & _).
  - vm_compute. do 4 right. left.
  - vm_compute. discriminate.
  - exists v, i. split_and!; [exact Hv|exact Hin|exact Hp].
Defined.

(** ** Sorting the index *)

Section SortFacts.
Context {A : Type} (key : A → Z).

Lemma insert_by_perm x l : insert_by key x l ≡ₚ x :: l.
Proof.
  induction l as [|y l IH]; simpl; [done|].
  destruct (key x <=? key y)%Z; [done|].
  rewrite IH. apply Permutation_swap.
Qed.

Lemma insert_by_sorted x l :
  StronglySorted (key_le key) l → StronglySorted (key_le key) (insert_by key x l).
Proof.
  induction 1 as [|y l Hl IH Hy]; simpl.
  - repeat constructor.
  - destruct (key x <=? key y)%Z eqn:Hxy.
    + apply Z.leb_le in Hxy. constructor; [by constructor|].
      constructor; [done|].
      eapply Forall_impl; [exact Hy|]. unfold key_le. intros; simpl in *; lia.
    + apply Z.leb_gt in Hxy. constructor; [done|].
      rewrite insert_by_perm. constructor; [unfold key_le; lia|done].
Qed.

Lemma insert_by_filter (k : Z) x l :
  StronglySorted (key_le key) l →
  filter (λ a, key a = k) (insert_by key x l)
  = filter (λ a, key a = k) (x :: l).
Proof.
  induction 1 as [|y l Hl IH Hy]; simpl; [done|].
  destruct (key x <=? key y)%Z eqn:Hxy; [done|].
  apply Z.leb_gt in Hxy.
  rewrite (filter_cons _ y (insert_by key x l)), IH.
  rewrite !filter_cons.
  destruct (decide (key y = k)), (decide (key x = k)); try done. lia.
Qed.

Lemma sort_by_sorted l : StronglySorted (key_le key) (sort_by key l).
Proof.
  induction l as [|x l IH]; simpl; [constructor|]. by apply insert_by_sorted.
Qed.

Lemma sort_by_perm l : sort_by key l ≡ₚ l.
Proof.
  induction l as [|x l IH]; simpl; [done|]. by rewrite insert_by_perm, IH.
Qed.

Lemma sort_by_stable (k : Z) l :
  filter (λ a, key a = k) (sort_by key l) = filter (λ a, key a = k) l.
Proof.
  induction l as [|x l IH]; simpl; [done|].
  rewrite insert_by_filter by apply sort_by_sorted.
  by rewrite !filter_cons, IH.
Qed.

End SortFacts.

(** X7: sorting a state group of the index loses and duplicates no
    section, leaves the sections in ascending order of their sort
    keys, and keeps sections with equal keys in the order in which
    they were listed. *)
Theorem sort_group_sorted_stable (fol_ranges : list (option string)) :
  sort_group fol_ranges ≡ₚ fol_ranges
  ∧ StronglySorted (key_le simple_folio_sort_key) (sort_group fol_ranges)
  ∧ ∀ k, filter (λ f, simple_folio_sort_key f = k) (sort_group fol_ranges)
         = filter (λ f, simple_folio_sort_key f = k) fol_ranges.
Proof.
  split_and!; [apply sort_by_perm|apply sort_by_sorted|].
  intros k. apply sort_by_stable.
Qed.

(** ** The sort key of a number *)

Lemma int_of_uint (d : Decimal.uint) : ∀ acc : nat,
  fold_left (λ a c, (10 * a + digit_value c)%Z)
            (list_ascii_of_string (NilEmpty.string_of_uint d)) (Z.of_nat acc)
  = Z.of_nat (Nat.of_uint_acc d acc).
Proof.
  induction d as [|d IH|d IH|d IH|d IH|d IH|d IH|d IH|d IH|d IH|d IH];
    intros acc; [done|..];
    cbn [NilEmpty.string_of_uint list_ascii_of_string fold_left Nat.of_uint_acc];
    rewrite <-IH; f_equal; rewrite Nat.tail_mul_spec;
    unfold digit_value;
    match goal with
    | |- context [nat_of_ascii ?c] =>
        let v := eval vm_compute in (nat_of_ascii c) in
        change (nat_of_ascii c) with v
    end; lia.
Qed.

Lemma int_str (n : nat) : int (Py.str n) = Z.of_nat n.
Proof.
  unfold int, Py.str. rewrite (int_of_uint _ 0).
  change (Nat.of_uint_acc (Nat.to_uint n) 0) with (Nat.of_uint (Nat.to_uint n)).
  by rewrite DecimalNat.Unsigned.of_to.
Qed.

Lemma leading_digits_uint (d : Decimal.uint) (rest : string) :
  starts_with_digit rest = false →
  leading_digits (NilEmpty.string_of_uint d +:+ rest) = NilEmpty.string_of_uint d.
Proof.
  intros Hrest.
  induction d as [|d IH|d IH|d IH|d IH|d IH|d IH|d IH|d IH|d IH|d IH];
    [|cbn [NilEmpty.string_of_uint];
      change (String ?c ?s +:+ rest) with (String c (s +:+ rest));
      cbn [leading_digits]; simpl is_digit; cbn iota; by rewrite IH..].
  simpl. destruct rest as [|c rest]; [done|]. simpl in *. by rewrite Hrest.
Qed.

Lemma str_not_empty (n : nat) : Py.str n ≠ "".
Proof.
  unfold Py.str. intros H.
  assert (Some (Nat.to_uint n) = Some Decimal.Nil) as [= Hu].
  { by rewrite <-NilEmpty.usu, H. }
  pose proof (DecimalNat.Unsigned.of_to n) as Hn. rewrite Hu in Hn.
  simpl in Hn. subst n. discriminate.
Qed.

(** X8: a folio range that starts with the decimal numeral of [n],
    followed by nothing or by a character that is no digit, has the
    sort key [n]; sort keys therefore order such ranges by the number
    they start with, not by their spelling. *)
Theorem sort_key_of_numeral (n : nat) (rest : string) :
  starts_with_digit rest = false →
  simple_folio_sort_key (Some (Py.str n +:+ rest)) = Z.of_nat n
  ∧ ∀ m rest', starts_with_digit rest' = false → m < n →
      (simple_folio_sort_key (Some (Py.str m +:+ rest'))
       < simple_folio_sort_key (Some (Py.str n +:+ rest)))%Z.
Proof.
  assert (∀ k r, starts_with_digit r = false →
            simple_folio_sort_key (Some (Py.str k +:+ r)) = Z.of_nat k) as Hkey.
  { intros k r Hr. unfold simple_folio_sort_key, re_match_digits.
    pose proof (str_not_empty k) as Hne. cbn [from_option id].
    assert (Py.truthy (Some (Py.str k +:+ r)) = true) as ->.
    { destruct (Py.str k); [done|]. done. }
    cbn [negb]. unfold Py.str in *.
    rewrite leading_digits_uint by done.
    destruct (NilEmpty.string_of_uint (Nat.to_uint k)) eqn:E; [done|].
    rewrite <-E. apply int_str. }
  intros Hrest. split; [by apply Hkey|].
  intros m rest' Hrest' Hlt. rewrite !Hkey by done. lia.
Qed.

Lemma sort_key_of_numeral_witness :
  simple_folio_sort_key (Some (Py.str 12 +:+ "-15")) = 12%Z.
Proof. apply (sort_key_of_numeral 12 "-15"). reflexivity. Defined.

(** ** The seed and the page break before a section *)

Lemma at_div_nodes_before scan div_node_xml source_root :
  at_div scan div_node_xml source_root
  = match nodes_before_div div_node_xml source_root with
    | Some prevs => scan prevs
    | None => ("", "")
    end.
Proof.
  unfold at_div, nodes_before_div.
  destruct (search_xml_id div_node_xml) as [div_id|]; [|done]. simpl.
  destruct (find_div_in_source div_id source_root) as [d|]; [|done]. simpl.
  by destruct (ET.index d (ET.iter source_root)).
Qed.

Lemma get_preceding_pb_nodes_before div_node_xml source_root :
  get_preceding_pb_element div_node_xml source_root
  = nodes_before_div div_node_xml source_root ≫= first_page_break.
Proof.
  unfold get_preceding_pb_element, nodes_before_div.
  destruct (search_xml_id div_node_xml) as [div_id|]; [|done]. simpl.
  destruct (find_div_in_source div_id source_root) as [d|]; [|done]. simpl.
  by destruct (ET.index d (ET.iter source_root)).
Qed.

Lemma nodes_before_div_in_iter div_node_xml source_root prevs :
  nodes_before_div div_node_xml source_root = Some prevs →
  prevs ⊆ ET.iter source_root.
Proof.
  unfold nodes_before_div.
  destruct (search_xml_id div_node_xml) as [div_id|]; [|done]. simpl.
  destruct (find_div_in_source div_id source_root) as [d|]; [|done]. simpl.
  destruct (ET.index d (ET.iter source_root)) as [idx|]; [|done]. simpl.
  intros [= <-] n Hn.
  apply list_elem_of_In, in_rev, list_elem_of_In in Hn.
  by eapply subseteq_take.
Qed.

Lemma first_page_break_Some prevs pb :
  first_page_break prevs = Some pb → pb ∈ prevs ∧ is_page_break pb.2 = true.
Proof.
  induction prevs as [|n prevs IH]; simpl; [done|].
  destruct (is_page_break n.2) eqn:Hn.
  - intros [= <-]. split; [by left|done].
  - intros [Hin Hpb]%IH. split; [by right|done].
Qed.

Lemma first_nonempty_value_cons is_marker n prevs :
  first_nonempty_value is_marker (n :: prevs)
  = if is_marker n.2 && Py.truthy (Some (effective_value n.2))
    then effective_value n.2
    else first_nonempty_value is_marker prevs.
Proof. done. Qed.

Lemma first_nonempty_of_first_page_break prevs :
  match first_page_break prevs with
  | None => first_nonempty_value is_page_break prevs = ""
  | Some pb =>
      effective_value pb.2 ≠ "" →
      first_nonempty_value is_page_break prevs = effective_value pb.2
  end.
Proof.
  induction prevs as [|n prevs IH]; [done|].
  rewrite first_nonempty_value_cons. cbn [first_page_break].
  destruct (is_page_break n.2); [|exact IH].
  intros Hne. by destruct (effective_value n.2).
Qed.

Lemma first_nonempty_provenance is_marker prevs :
  first_nonempty_value is_marker prevs = ""
  ∨ ∃ m, m ∈ prevs ∧ is_marker m.2 = true
         ∧ effective_value m.2 = first_nonempty_value is_marker prevs.
Proof.
  induction prevs as [|n prevs IH]; [by left|].
  rewrite first_nonempty_value_cons.
  destruct (is_marker n.2 && Py.truthy (Some (effective_value n.2))) eqn:Hn.
  - apply andb_prop in Hn as [Hn _].
    right. exists n. split_and!; [by left|done..].
  - destruct IH as [?|(m & ? & ? & ?)]; [by left|].
    right. exists m. split_and!; [by right|done..].
Qed.

(** X9: the seed folio agrees with the page break that
    [get_preceding_pb_element] returns for the same section: it is
    empty when there is no such page break, and it is the effective
    value of that page break whenever this value is not empty; the
    page break returned is a page break of the source. *)
Theorem seed_folio_of_preceding_pb (div_node_xml : string)
  (source_root : Element) :
  match get_preceding_pb_element div_node_xml source_root with
  | None => (get_folio_and_col_at_div div_node_xml source_root).1 = ""
  | Some pb =>
      pb ∈ ET.iter source_root ∧ is_page_break pb.2 = true
      ∧ (effective_value pb.2 ≠ "" →
         (get_folio_and_col_at_div div_node_xml source_root).1
         = effective_value pb.2)
  end.
Proof.
  unfold get_folio_and_col_at_div.
  rewrite get_preceding_pb_nodes_before, at_div_nodes_before.
  destruct (nodes_before_div div_node_xml source_root) as [prevs|] eqn:Hprevs;
    [|done].
  simpl. rewrite joint_scan_spec. simpl.
  pose proof (first_nonempty_of_first_page_break prevs) as Hfirst.
  destruct (first_page_break prevs) as [pb|] eqn:Hpb; [|done].
  apply first_page_break_Some in Hpb as [Hin Hpb].
  split_and!; [|done..].
  by eapply nodes_before_div_in_iter.
Qed.

Lemma seed_folio_of_preceding_pb_witness :
  (get_folio_and_col_at_div d1_xml numbered_pb_source).1 = "7v".
Proof.
  pose proof (seed_folio_of_preceding_pb d1_xml numbered_pb_source) as H.
  destruct (get_preceding_pb_element d1_xml numbered_pb_source) as [pb|] eqn:Hpb;
    [|by vm_compute in Hpb].
  destruct H as (_ & _ & H).
  assert (effective_value pb.2 = "7v") as Hv.
  { vm_compute in Hpb. injection Hpb as <-. vm_compute; reflexivity. }
  rewrite H; [exact Hv|]. rewrite Hv. discriminate.
Defined.

(** X10: each component of the seed is either empty or the effective
    value of a marker of its kind in the source document: the folio
    that of a page break, the column that of a column break or of a
    milestone whose unit is the column. *)
Theorem seed_values_from_markers (div_node_xml : string)
  (source_root : Element) :
  let seed := get_folio_and_col_at_div div_node_xml source_root in
  (seed.1 = ""
   ∨ ∃ pb, pb ∈ ET.iter source_root ∧ is_page_break pb.2 = true
           ∧ effective_value pb.2 = seed.1)
  ∧ (seed.2 = ""
     ∨ ∃ m, m ∈ ET.iter source_root ∧ is_column_marker m.2 = true
            ∧ effective_value m.2 = seed.2).
Proof.
  unfold get_folio_and_col_at_div. rewrite at_div_nodes_before.
  destruct (nodes_before_div div_node_xml source_root) as [prevs|] eqn:Hprevs;
    [|by split; left].
  pose proof (nodes_before_div_in_iter _ _ _ Hprevs) as Hsub.
  cbn zeta. rewrite joint_scan_spec. simpl.
  split.
  - destruct (first_nonempty_provenance is_page_break prevs)
      as [?|(m & Hm & ? & ?)]; [by left|].
    right. exists m. split_and!; [by apply Hsub|done..].
  - destruct (first_nonempty_provenance is_column_marker prevs)
      as [?|(m & Hm & ? & ?)]; [by left|].
    right. exists m. split_and!; [by apply Hsub|done..].
Qed.

(** ** Finding the identifier in a serialized section *)

Lemma strip_prefix_app p : ∀ a t,
  String.length p ≤ String.length a →
  strip_prefix p (a +:+ t) = (λ s, s +:+ t) <$> strip_prefix p a.
Proof.
  induction p as [|x p IH]; intros a t Hlen; [done|].
  destruct a as [|y a]; [simpl in Hlen; lia|].
  change (String y a +:+ t) with (String y (a +:+ t)). cbn [strip_prefix].
  destruct (Ascii.eqb x y); [|done]. apply IH. simpl in Hlen. lia.
Qed.

Lemma span_not_quote_app v rest :
  Py.contains dquote v = false →
  span_not_quote (v +:+ String dquote rest) = (v, String dquote rest).
Proof.
  induction v as [|c v IH]; [done|].
  change (String c v +:+ String dquote rest)
    with (String c (v +:+ String dquote rest)).
  cbn [Py.contains span_not_quote].
  destruct (Ascii.eqb c dquote); [done|]. intros Hv. by rewrite IH.
Qed.

Lemma span_not_quote_clean s g rest :
  span_not_quote s = (g, rest) → Py.contains dquote g = false.
Proof.
  revert g rest. induction s as [|c s IH]; intros g rest; simpl.
  - by intros [= <- <-].
  - destruct (Ascii.eqb c dquote) eqn:Hc; [by intros [= <- <-]|].
    destruct (span_not_quote s) as [g' rest'] eqn:Hs.
    intros [= <- <-]. simpl. rewrite Hc. by eapply IH.
Qed.

Lemma match_xml_id_here_reduce v rest :
  match_xml_id_here
    ("xml:id" +:+ String "=" (String dquote (v +:+ String dquote rest)))
  = match span_not_quote (v +:+ String dquote rest) with
    | (String g0 g, String _ _) => Some (String g0 g)
    | _ => None
    end.
Proof. reflexivity. Qed.

Lemma xml_id_attribute_app v rest :
  xml_id_attribute v +:+ rest
  = "xml:id" +:+ String "=" (String dquote (v +:+ String dquote rest)).
Proof.
  unfold xml_id_attribute. rewrite append_assoc.
  change (String dquote (v +:+ String dquote "") +:+ rest)
    with (String dquote ((v +:+ String dquote "") +:+ rest)).
  rewrite append_assoc. reflexivity.
Qed.

Lemma match_xml_id_here_attribute v rest :
  v ≠ "" → Py.contains dquote v = false →
  match_xml_id_here (xml_id_attribute v +:+ rest) = Some v.
Proof.
  intros Hne Hv.
  rewrite xml_id_attribute_app, match_xml_id_here_reduce.
  rewrite span_not_quote_app by done. by destruct v.
Qed.

Lemma match_xml_id_here_clean s v :
  match_xml_id_here s = Some v → v ≠ "" ∧ Py.contains dquote v = false.
Proof.
  unfold match_xml_id_here.
  destruct (strip_prefix "xml:id" s) as [s1|]; [|done]. simpl.
  destruct (Py.lstrip s1) as [|c2 s2]; [done|].
  destruct (Ascii.eqb c2 "="); [|done].
  destruct (Py.lstrip s2) as [|c3 s3]; [done|].
  destruct (Ascii.eqb c3 dquote); [|done].
  destruct (span_not_quote s3) as [g r] eqn:Hspan.
  destruct g as [|g0 g]; [done|]. destruct r as [|r0 r]; [done|].
  intros [= <-]. split; [done|]. by eapply span_not_quote_clean.
Qed.

Lemma search_xml_id_unfold s :
  search_xml_id s
  = match match_xml_id_here s with
    | Some g => Some g
    | None => match s with
              | EmptyString => None
              | String _ s' => search_xml_id s'
              end
    end.
Proof. by destruct s. Qed.

(** X11: the search for the identifier of a serialized section returns
    the value of the first [xml:id] attribute: when the text [xml:id]
    begins nowhere in what precedes the attribute, and the value is
    not empty, the value is found; and whatever is found is not empty
    and holds no double quote. *)
Theorem search_xml_id_round_trip :
  (∀ pre v rest,
     xml_id_begins_in pre = false → v ≠ "" → Py.contains dquote v = false →
     search_xml_id (pre +:+ xml_id_attribute v +:+ rest) = Some v)
  ∧ (∀ s v, search_xml_id s = Some v → v ≠ "" ∧ Py.contains dquote v = false).
Proof.
  split.
  - intros pre v rest Hpre Hne Hv. induction pre as [|c pre IH].
    + rewrite search_xml_id_unfold.
      change ("" +:+ xml_id_attribute v +:+ rest)
        with (xml_id_attribute v +:+ rest).
      by rewrite match_xml_id_here_attribute.
    + cbn [xml_id_begins_in] in Hpre.
      apply orb_false_elim in Hpre as [Hhere Hpre].
      apply bool_decide_eq_false in Hhere.
      rewrite search_xml_id_unfold.
      assert (match_xml_id_here (String c pre +:+ xml_id_attribute v +:+ rest)
              = None) as ->.
      { unfold match_xml_id_here.
        assert (strip_prefix "xml:id"
                  (String c pre +:+ xml_id_attribute v +:+ rest) = None) as ->;
          [|done].
        rewrite xml_id_attribute_app, <-append_assoc, strip_prefix_app.
        - destruct (strip_prefix "xml:id" (String c pre +:+ "xml:id")) eqn:E;
            [|done].
          destruct Hhere. by eexists.
        - clear. change (String c pre +:+ "xml:id")
            with (String c (pre +:+ "xml:id")).
          induction pre as [|x pre IHp]; simpl in *; lia. }
      change (String c pre +:+ xml_id_attribute v +:+ rest)
        with (String c (pre +:+ xml_id_attribute v +:+ rest)).
      by apply IH.
  - intros s. induction s as [|c s IH]; intros v; rewrite search_xml_id_unfold.
    + destruct (match_xml_id_here "") eqn:E; [|done].
      intros [= <-]. by eapply match_xml_id_here_clean.
    + destruct (match_xml_id_here (String c s)) eqn:E.
      * intros [= <-]. by eapply match_xml_id_here_clean.
      * apply IH.
Qed.

Lemma search_xml_id_round_trip_witness :
  search_xml_id (div_start_tei +:+ xml_id_attribute "d1" +:+ ">") = Some "d1".
Proof.
  apply (proj1 search_xml_id_round_trip div_start_tei "d1" ">").
  - vm_compute; reflexivity.
  - discriminate.
  - vm_compute; reflexivity.
Defined.

(** ** More on metadata loading *)

Lemma lower_char_idem (c : ascii) :
  Py.lower_char (Py.lower_char c) = Py.lower_char c.
Proof.
  destruct c as [[] [] [] [] [] [] [] []]; vm_compute; reflexivity.
Qed.

Lemma lower_idem (s : string) : Py.lower (Py.lower s) = Py.lower s.
Proof.
  induction s as [|c s IH]; simpl; [done|]. by rewrite lower_char_idem, IH.
Qed.

(** The row that the loop body stores. *)
Lemma load_row_stored i row md log md' log' :
  load_row i row md log = inl (md', log') → row_id row ≠ "" →
  md' = <[row_id row := set_state (stored_state row) row]> md.
Proof.
  unfold load_row, row_id, stored_state.
  destruct (cells row !! "id") as [[ident|]|] eqn:Hid;
    cbn [from_option id]; [| done |].
  - destruct (Py.truthy (Some (Py.strip ident))) eqn:Ht.
    + destruct (cells row !! "state") as [[state|]|];
        cbn [from_option id]; [|done|]; by intros [= <- <-].
    + apply truthy_Some_false in Ht. by intros _ [].
  - by intros _ [].
Qed.

Lemma load_rows_keeps fieldnames rows i md0 log0 log md key :
  load_rows fieldnames i rows md0 log0 = (log, inl md) →
  (∀ k row, (dict_row fieldnames
               <$> filter (λ row : list string, row ≠ []) rows) !! k = Some row →
            row_id row ≠ key) →
  md !! key = md0 !! key.
Proof.
  intros (_ & Hkeys & _ & Hvals)%load_rows_inv Hother.
  destruct (md !! key) as [v|] eqn:Hv.
  - destruct (Hvals key v Hv) as [?|(_ & _ & k & row & state & Hk & Hid & _)];
      [done|].
    by destruct (Hother k row Hk).
  - destruct (md0 !! key) as [v0|] eqn:Hv0; [|done].
    destruct (Hkeys key) as [v Hv']; [by eexists|]. congruence.
Qed.

Lemma load_rows_last fieldnames rows : ∀ i md0 log0 log md k row,
  load_rows fieldnames i rows md0 log0 = (log, inl md) →
  (dict_row fieldnames
     <$> filter (λ row : list string, row ≠ []) rows) !! k = Some row →
  row_id row ≠ "" →
  (∀ k' row', k < k' →
     (dict_row fieldnames
        <$> filter (λ row : list string, row ≠ []) rows) !! k' = Some row' →
     row_id row' ≠ row_id row) →
  md !! row_id row = Some (set_state (stored_state row) row).
Proof.
  induction rows as [|r rows IH]; intros i md0 log0 log md k row; [done|].
  destruct r as [|c r].
  { simpl. rewrite filter_cons_False by (by intros ?). apply IH. }
  cbn [load_rows]. rewrite filter_cons_True by done. rewrite fmap_cons.
  set (d := dict_row fieldnames (c :: r)).
  destruct (load_row i d md0 log0) as [[md' log']|e] eqn:Hrow; [|done].
  intros Hload Hk Hid Hlater. destruct k as [|k]; simplify_eq/=.
  - rewrite (load_rows_keeps _ _ _ _ _ _ _ _ Hload).
    + rewrite (load_row_stored _ _ _ _ _ _ Hrow Hid). apply lookup_insert_eq.
    + intros k' row' Hk'. apply (Hlater (S k') row'); [lia|done].
  - apply (IH _ _ _ _ _ k row Hload Hk Hid).
    intros k' row' Hlt Hk'. apply (Hlater (S k') row'); [lia|done].
Qed.

Lemma load_rows_fails fieldnames rows : ∀ i md0 log0 k row,
  (dict_row fieldnames
     <$> filter (λ row : list string, row ≠ []) rows) !! k = Some row →
  row_fails row →
  ∃ log e, load_rows fieldnames i rows md0 log0 = (log, inr e).
Proof.
  induction rows as [|r rows IH]; intros i md0 log0 k row; [done|].
  destruct r as [|c r].
  { simpl. rewrite filter_cons_False by (by intros ?). apply IH. }
  cbn [load_rows]. rewrite filter_cons_True by done. rewrite fmap_cons.
  set (d := dict_row fieldnames (c :: r)).
  intros Hk Hfail.
  destruct (load_row i d md0 log0) as [[md' log']|e] eqn:Hrow;
    [|by eexists _, _].
  destruct k as [|k]; [|by eapply IH].
  simpl in Hk. assert (row = d) as -> by congruence.
  exfalso. revert Hrow. unfold load_row.
  destruct Hfail as [->|[Hid Hst]]; [done|].
  unfold row_id in Hid. rewrite Hst.
  destruct (cells d !! "id") as [[ident|]|]; cbn [from_option id]; [|done..].
  destruct (Py.truthy (Some (Py.strip ident))) eqn:Ht; [done|].
  by apply truthy_Some_false in Ht.
Qed.

(** X12: when two rows of the table carry the same identifier the
    later one is kept: the mapping that loading returns sends the
    identifier of a row that no later row repeats to that row, with its
    state replaced by the stripped and lower-cased state, or by
    incomplete when the table has no state column. *)
Theorem metadata_last_row_wins (meta_file : string) file log md k row :
  load_metadata meta_file (Some file) = (log, Returned md) →
  reader_rows file !! k = Some row →
  row_id row ≠ "" →
  (∀ k' row', k < k' → reader_rows file !! k' = Some row' →
              row_id row' ≠ row_id row) →
  md !! row_id row = Some (set_state (stored_state row) row)
  ∧ Py.lower (stored_state row) = stored_state row.
Proof.
  unfold load_metadata, load_metadata_try.
  destruct file as [|header rows]; [done|].
  case_bool_decide; [|done].
  destruct (load_rows _ 1 rows ∅ []) as [log' [md'|e]] eqn:Hload;
    [|by destruct e].
  intros [= <- <-] Hk Hid Hlater. split; [|apply lower_idem].
  by eapply load_rows_last.
Qed.

Lemma metadata_last_row_wins_witness :
  ∃ log md row,
    load_metadata "in/meta.csv" (Some duplicate_id_table) = (log, Returned md)
    ∧ md !! "a" = Some row ∧ cells row !! "state" = Some (Some "near-complete").
Proof.
  destruct (load_metadata "in/meta.csv" (Some duplicate_id_table))
    as [log [md|e]] eqn:Hload; [|vm_compute in Hload; discriminate].
  exists log, md.
  destruct (metadata_last_row_wins "in/meta.csv" duplicate_id_table log md 1
              (dict_row ["id"; "state"] ["a"; " Near-Complete "]) Hload)
    as [Hmd _].
  - vm_compute; reflexivity.
  - vm_compute; discriminate.
  - intros [|[|[|k']]] row' Hlt Hk'; [lia|lia|vm_compute in Hk'; discriminate..].
  - eexists. split; [reflexivity|]. split; [exact Hmd|]. vm_compute; reflexivity.
Defined.

Section FatalFacts.
Context (process_sections : gmap string Row → list string * Z).

(** X13: loading is fatal, and the run ends with status 1 before any
    section is processed, when the metadata file is missing, when it
    holds no header, and when a row is too short to reach the
    identifier column or, its identifier not being blank, the state
    column. *)
Theorem metadata_fatal_cases (meta_file : string) :
  (∀ file,
     file = None ∨ file = Some []
     ∨ (∃ header rows k row,
          file = Some (header :: rows) ∧ "id" ∈ Py.strip <$> header
          ∧ reader_rows (header :: rows) !! k = Some row ∧ row_fails row) →
     (∃ log, load_metadata meta_file file = (log, Raised NameError))
     ∧ processor_run process_sections meta_file file = ([], 1%Z)).
Proof.
  intros file Hcase.
  assert (∃ log, load_metadata meta_file file = (log, Raised NameError))
    as [log Hload].
  { destruct Hcase as [->|[->|(header & rows & k & row & -> & Hid & Hk & Hf)]];
      [by eexists..|].
    unfold load_metadata, load_metadata_try.
    rewrite bool_decide_eq_true_2 by done.
    destruct (load_rows_fails (Py.strip <$> header) rows 1 ∅ [] k row Hk Hf)
      as (log & e & ->).
    destruct e; by eexists. }
  split; [by eexists|]. unfold processor_run. by rewrite Hload.
Qed.

End FatalFacts.

Lemma metadata_fatal_cases_witness :
  processor_run (λ _, ([], 0%Z)) "in/meta.csv" (Some short_row_table)
  = ([], 1%Z).
Proof.
  apply (metadata_fatal_cases (λ _, ([], 0%Z)) "in/meta.csv").
  right. right.
  exists ["id"; "state"], [["a"; "complete"]; ["b"]], 1,
         (dict_row ["id"; "state"] ["b"]).
  split_and!.
  - reflexivity.
  - vm_compute. left.
  - vm_compute; reflexivity.
  - right. split; [vm_compute; discriminate|vm_compute; reflexivity].
Defined.

(** ** States of sections *)

Lemma replace_space_fixed s :
  Py.contains " " s = false → replace_space s = s.
Proof.
  induction s as [|c s IH]; simpl; [done|].
  destruct (Ascii.eqb c " "); [done|]. intros Hs. by rewrite IH.
Qed.

Lemma replace_space_no_space s : Py.contains " " (replace_space s) = false.
Proof.
  induction s as [|c s IH]; simpl; [done|].
  destruct (Ascii.eqb c " ") eqn:Hc; simpl; [done|]. by rewrite Hc.
Qed.

(** X14: a section for which the index shows links to its pages has
    had these pages generated, and is listed in the group named after
    its state; for a state without a space the index and the page
    generation decide alike; the index lists a section in the group
    incomplete exactly when it shows no links for it; and the
    normalized state used in directory names holds no space. *)
Theorem html_links_and_pages (div_state : string) :
  (include_html div_state = true →
   generate_html div_state = true ∧ group_of div_state = div_state)
  ∧ (Py.contains " " div_state = false →
     generate_html div_state = include_html div_state)
  ∧ (include_html div_state = false ↔ group_of div_state = "incomplete")
  ∧ Py.contains " " (replace_space div_state) = false.
Proof.
  unfold include_html, generate_html, group_of, ALLOWED_HTML_STATES.
  split_and!.
  - intros Hin%bool_decide_eq_true.
    rewrite !elem_of_cons, elem_of_nil in Hin.
    destruct Hin as [->|[->|[]]]; by vm_compute.
  - intros Hs. by rewrite replace_space_fixed.
  - rewrite bool_decide_eq_false, !elem_of_cons, elem_of_nil.
    destruct (String.eqb_spec div_state "near-complete") as [->|Hnc].
    { split; [intros []; auto|discriminate]. }
    destruct (String.eqb_spec div_state "complete") as [->|Hc].
    { split; [intros []; auto|discriminate]. }
    split; [done|]. intros _ [?|[?|[]]]; done.
  - apply replace_space_no_space.
Qed.

Lemma html_links_and_pages_witness :
  generate_html "near-complete" = true
  ∧ group_of "near-complete" = "near-complete".
Proof. apply (proj1 (html_links_and_pages "near-complete")). reflexivity. Defined.

(** A state written with a space is generated but not linked. *)
Example spaced_state_not_linked :
  generate_html "near complete" = true
  ∧ include_html "near complete" = false
  ∧ group_of "near complete" = "incomplete".
Proof. by vm_compute. Qed.

Lemma load_rows_states fieldnames rows : ∀ i md0 log0 log md,
  load_rows fieldnames i rows md0 log0 = (log, inl md) →
  (∀ key v, md0 !! key = Some v → ∃ row, v = set_state (stored_state row) row) →
  ∀ key v, md !! key = Some v → ∃ row, v = set_state (stored_state row) row.
Proof.
  induction rows as [|r rows IH]; intros i md0 log0 log md.
  - simpl. by intros [= <- <-].
  - destruct r as [|c r]; [apply IH|]. cbn [load_rows].
    set (d := dict_row fieldnames (c :: r)).
    destruct (load_row i d md0 log0) as [[md' log']|e] eqn:Hrow; [|done].
    intros Hload Hmd0. apply (IH _ _ _ _ _ Hload).
    destruct (load_row_inl _ _ _ _ _ _ Hrow) as [(_ & -> & _)|(Hid & _ & _)];
      [done|].
    rewrite (load_row_stored _ _ _ _ _ _ Hrow Hid).
    intros key v. destruct (decide (row_id d = key)) as [<-|Hne].
    + rewrite lookup_insert_eq. intros [= <-]. by eexists.
    + rewrite lookup_insert_ne by done. apply Hmd0.
Qed.

(** X15: on the mapping that loading returns, looking up the state of
    a section never fails: an identifier without entry has the state
    incomplete, and an identifier with an entry has the state stored
    in it, which lower-casing leaves unchanged. *)
Theorem div_state_of_loaded (meta_file : string) file log md div_id :
  load_metadata meta_file (Some file) = (log, Returned md) →
  match md !! div_id with
  | None => div_state_of md div_id = Some "incomplete"
  | Some v =>
      ∃ state, cells v !! "state" = Some (Some state)
               ∧ div_state_of md div_id = Some state
  end.
Proof.
  unfold load_metadata, load_metadata_try.
  destruct file as [|header rows]; [done|].
  case_bool_decide; [|done].
  destruct (load_rows _ 1 rows ∅ []) as [log' [md'|e]] eqn:Hload;
    [|by destruct e].
  intros [= <- <-]. unfold div_state_of.
  destruct (md' !! div_id) as [v|] eqn:Hv; [|done].
  destruct (load_rows_states _ _ _ _ _ _ _ Hload
              ltac:(intros ??; by rewrite lookup_empty) div_id v Hv)
    as [row ->].
  exists (stored_state row). cbn [set_state cells].
  rewrite lookup_insert_eq. split; [done|].
  unfold stored_state. by rewrite lower_idem.
Qed.

Lemma div_state_of_loaded_witness :
  ∃ log md, load_metadata "in/meta.csv" (Some duplicate_id_table)
            = (log, Returned md)
            ∧ div_state_of md "a" = Some "near-complete"
            ∧ div_state_of md "b" = Some "incomplete".
Proof.
  destruct (load_metadata "in/meta.csv" (Some duplicate_id_table))
    as [log [md|e]] eqn:Hload; [|vm_compute in Hload; discriminate].
  exists log, md. split; [reflexivity|].
  pose proof (div_state_of_loaded "in/meta.csv" duplicate_id_table log md "a"
                Hload) as Ha.
  pose proof (div_state_of_loaded "in/meta.csv" duplicate_id_table log md "b"
                Hload) as Hb.
  assert ((log, Returned md)
          = load_metadata "in/meta.csv" (Some duplicate_id_table)) as Heq
    by (symmetry; exact Hload).
  vm_compute in Heq. injection Heq as _ Hmd. subst md.
  split; vm_compute; reflexivity.
Defined.

(** ** The canvas of the first folio *)

Section CanvasFacts.

Local Abbreviation step :=
  (λ (m : gmap string string) (pb : node),
     match canvas_entry pb.2 with
     | Some (pb_n, pb_facs) => <[pb_n := pb_facs]> m
     | None => m
     end).

Lemma canvas_fold_provenance pbs : ∀ (m : gmap string string) k u,
  foldl step m pbs !! k = Some u →
  m !! k = Some u ∨ ∃ pb, pb ∈ pbs ∧ canvas_entry pb.2 = Some (k, u).
Proof.
  induction pbs as [|pb pbs IH]; intros m k u; simpl; [by left|].
  intros [Hm|(pb' & Hin & He)]%IH.
  - destruct (canvas_entry pb.2) as [[n f]|] eqn:He; [|by left].
    destruct (decide (n = k)) as [->|Hne].
    + rewrite lookup_insert_eq in Hm. simplify_eq.
      right. exists pb. split; [by left|done].
    + rewrite lookup_insert_ne in Hm by done. by left.
  - right. exists pb'. split; [by right|done].
Qed.

Lemma canvas_fold_other pbs : ∀ (m : gmap string string) k,
  Forall (λ pb : node, ∀ u, canvas_entry pb.2 ≠ Some (k, u)) pbs →
  foldl step m pbs !! k = m !! k.
Proof.
  induction pbs as [|pb pbs IH]; intros m k Hpbs; simpl; [done|].
  apply Forall_cons in Hpbs as [Hpb Hpbs]. rewrite IH by done.
  destruct (canvas_entry pb.2) as [[n f]|] eqn:He; [|done].
  apply lookup_insert_ne. intros ->. by apply (Hpb f).
Qed.

Lemma canvas_fold_last pre pb post (m : gmap string string) k u :
  canvas_entry pb.2 = Some (k, u) →
  Forall (λ pb' : node, ∀ u', canvas_entry pb'.2 ≠ Some (k, u')) post →
  foldl step m (pre ++ pb :: post) !! k = Some u.
Proof.
  intros He Hpost. rewrite foldl_app. simpl.
  rewrite canvas_fold_other by done. rewrite He. apply lookup_insert_eq.
Qed.

End CanvasFacts.

Lemma canvas_entry_Some pb k u :
  canvas_entry pb = Some (k, u) →
  effective_value pb = k ∧ ET.get pb "facs" = Some u ∧ k ≠ "" ∧ u ≠ "".
Proof.
  unfold canvas_entry.
  destruct (effective_value pb) as [|k0 k'] eqn:Hk; [done|].
  destruct (ET.get pb "facs") as [[|u0 u']|]; simpl; try done.
  by intros [= <- <-].
Qed.

(** X16: the canvas chosen for a page is never invented: when there is
    one, the list of lines is not empty, the folio of its first line
    is not empty, and the canvas is the [facs] of a page break of the
    standalone section whose effective value is that folio; and of
    several page breaks with the same effective value and a [facs],
    the last in document order gives the canvas. *)
Theorem canvas_of_first_folio (tei_root : Element) (lines : list LineRecord) :
  (∀ u, canvas_url lines (folio_to_canvas tei_root) = Some u →
     ∃ first rest pb,
       lines = first :: rest ∧ folio first ≠ ""
       ∧ pb ∈ findall_desc "pb" [] tei_root
       ∧ effective_value pb.2 = folio first
       ∧ ET.get pb.2 "facs" = Some u ∧ u ≠ "")
  ∧ (∀ first rest pre pb post u,
       lines = first :: rest →
       findall_desc "pb" [] tei_root = pre ++ pb :: post →
       canvas_entry pb.2 = Some (folio first, u) →
       Forall (λ pb' : node, ∀ u', canvas_entry pb'.2 ≠ Some (folio first, u'))
              post →
       canvas_url lines (folio_to_canvas tei_root) = Some u).
Proof.
  split.
  - intros u. unfold canvas_url, folio_to_canvas.
    destruct lines as [|first rest]; [done|].
    destruct (Py.truthy (Some (folio first))) eqn:Ht; [|done].
    intros [Hemp|(pb & Hin & He)]%canvas_fold_provenance;
      [by rewrite lookup_empty in Hemp|].
    apply canvas_entry_Some in He as (Hk & Hf & Hne & Hu).
    exists first, rest, pb. split_and!; done.
  - intros first rest pre pb post u -> Hsplit He Hpost.
    unfold canvas_url, folio_to_canvas.
    apply canvas_entry_Some in He as Hshape. destruct Hshape as (_ & _ & Hne & _).
    assert (Py.truthy (Some (folio first)) = true) as ->
      by (by destruct (folio first)).
    rewrite Hsplit. by apply canvas_fold_last.
Qed.

Lemma canvas_of_first_folio_witness :
  canvas_url (Helpers.extract_lines_from_xml canvas_doc "" "")
             (folio_to_canvas canvas_doc) = Some "c2".
Proof.
  apply (proj2 (canvas_of_first_folio canvas_doc
                  (Helpers.extract_lines_from_xml canvas_doc "" ""))
           {| line_no := 1; text := "x"; lg := ""; l_id := "";
              folio := "1r"; col := ""; speaker := "" |} []
           [([0], pb_facs "1r" "c1")] ([1; 0], pb_facs "1r" "c2") [] "c2").
  - vm_compute; reflexivity.
  - vm_compute; reflexivity.
  - vm_compute; reflexivity.
  - constructor.
Defined.

(** ** Emphasis markers in the text and table output *)

Lemma strip_em_clean a : ∀ rest,
  Py.contains "<" a = false →
  strip_em (a +:+ rest) = a +:+ strip_em rest.
Proof.
  induction a as [|c a IH]; intros rest; [done|].
  change (String c a +:+ rest) with (String c (a +:+ rest)).
  cbn [Py.contains]. destruct (Ascii.eqb c "<") eqn:Hc; [done|]. intros Ha.
  unfold strip_em. cbn [strip_em_from].
  assert (∀ p t, strip_prefix (String "<" p) (String c t) = None) as Hno.
  { intros p t. cbn [strip_prefix]. rewrite Ascii.eqb_sym in Hc. by rewrite Hc. }
  rewrite !bool_decide_eq_false_2
    by (rewrite Hno; by intros [??]).
  change (String c a +:+ strip_em_from 0 rest)
    with (String c (a +:+ strip_em rest)).
  f_equal. by apply IH.
Qed.

Lemma strip_em_open rest : strip_em ("<em>" +:+ rest) = strip_em rest.
Proof. reflexivity. Qed.

Lemma strip_em_close rest : strip_em ("</em>" +:+ rest) = strip_em rest.
Proof. reflexivity. Qed.

Lemma strip_em_segment seg rest :
  Py.contains "<" seg.2 = false →
  strip_em (show_segment seg +:+ rest) = seg.2 +:+ strip_em rest.
Proof.
  intros Hclean. destruct seg as [[] s]; unfold show_segment;
    cbn [fst snd] in *.
  - rewrite (append_assoc "<em>"), strip_em_open.
    rewrite (append_assoc s), strip_em_clean by done.
    by rewrite strip_em_close.
  - by apply strip_em_clean.
Qed.

(** X17: the text and table writers undo the emphasis markers of the
    renderer: on a text made of stretches that hold no angle bracket,
    some of them wrapped in emphasis markers, they write the stretches
    without the markers; a text without angle bracket is written as it
    is, and every record yields one line and one row. *)
Theorem writers_remove_emphasis :
  (∀ segs : list (bool * string),
     Forall (λ seg, Py.contains "<" seg.2 = false) segs →
     strip_em (Py.join (map show_segment segs)) = Py.join (map snd segs))
  ∧ (∀ s, Py.contains "<" s = false → strip_em s = s)
  ∧ (∀ t a s, ns_tag t = "ex" → Py.contains "<" s = false →
       strip_em (get_text_with_markup (ET.Elem t a (Some s) None [])) = s)
  ∧ (∀ lines, length (txt_lines lines) = length lines
              ∧ length (csv_rows lines) = length lines
              ∧ text <$> csv_rows lines = txt_lines lines).
Proof.
  assert (∀ s, Py.contains "<" s = false → strip_em s = s) as Hclean.
  { intros s Hs. rewrite <-(append_empty_r s) at 1.
    rewrite strip_em_clean by done. apply append_empty_r. }
  split_and!; [|exact Hclean| |].
  - intros segs Hsegs. induction Hsegs as [|seg segs Hseg _ IH]; [done|].
    cbn [map].
    change (Py.join (show_segment seg :: map show_segment segs))
      with (show_segment seg +:+ Py.join (map show_segment segs)).
    rewrite strip_em_segment by done. by rewrite IH.
  - intros t a s Ht Hs.
    assert (get_text_with_markup (ET.Elem t a (Some s) None [])
            = show_segment (true, s) +:+ "") as ->.
    { cbn [get_text_with_markup]. rewrite Ht.
      cbn [String.eqb Ascii.eqb Bool.eqb].
      rewrite join_single_tail. unfold show_segment.
      cbn [fst snd map Py.join foldr]. by destruct s. }
    by rewrite strip_em_segment, append_empty_r.
  - intros lines. unfold txt_lines, csv_rows.
    rewrite !length_map. split_and!; [done..|].
    induction lines as [|r lines IH]; [done|]. simpl. by rewrite <-IH.
Qed.

Lemma writers_remove_emphasis_witness :
  strip_em (Py.join (map show_segment [(false, "Li r"); (true, "ois"); (false, " dit")]))
  = "Li rois dit".
Proof.
  apply (proj1 writers_remove_emphasis
           [(false, "Li r"); (true, "ois"); (false, " dit")]).
  repeat constructor.
Defined.

(** The markers are removed in one pass: a marker that only appears
    once another one is removed stays. *)
Example strip_em_single_pass : strip_em "<e<em>m>x" = "<em>x".
Proof. reflexivity. Qed.

(** ** Texts of arbitrary code points *)

Lemma is_space_code_point (c : ascii) :
  Unicode.is_space (N_of_ascii c) = Py.is_space c.
Proof. destruct c as [[] [] [] [] [] [] [] []]; vm_compute; reflexivity. Qed.

Lemma is_apostrophe_code_point (c : ascii) :
  is_code_point ProcessDiv.APOSTROPHE (N_of_ascii c) = is_apostrophe c.
Proof. destruct c as [[] [] [] [] [] [] [] []]; vm_compute; reflexivity. Qed.

Lemma code_points_app (s t : string) :
  code_points (s +:+ t) = code_points s ++ code_points t.
Proof.
  induction s as [|c s IH]; [done|].
  change (String c s +:+ t) with (String c (s +:+ t)).
  cbn [code_points]. by rewrite IH.
Qed.


Lemma collapse_ws_from_code_points (s : string) : ∀ in_ws,
  code_points (Py.collapse_ws_from in_ws s)
  = Unicode.collapse_ws_from in_ws (code_points s).
Proof.
  induction s as [|c s IH]; intros in_ws; [done|].
  cbn [Py.collapse_ws_from code_points Unicode.collapse_ws_from].
  rewrite is_space_code_point.
  destruct (Py.is_space c), in_ws; cbn [code_points]; by rewrite IH.
Qed.

Lemma lstrip_code_points (s : string) :
  code_points (Py.lstrip s) = Unicode.lstrip (code_points s).
Proof.
  induction s as [|c s IH]; [done|].
  cbn [Py.lstrip code_points Unicode.lstrip].
  rewrite is_space_code_point. by destruct (Py.is_space c).
Qed.

Lemma rstrip_code_points (s : string) :
  code_points (Py.rstrip s) = Unicode.rstrip (code_points s).
Proof.
  induction s as [|c s IH]; [done|].
  rewrite rstrip_cons. cbn [code_points Unicode.rstrip].
  rewrite <-IH, is_space_code_point.
  destruct (Py.rstrip s) as [|d r]; [|done].
  by destruct (Py.is_space c).
Qed.

Lemma strip_code_points (s : string) :
  code_points (Py.strip s) = Unicode.strip (code_points s).
Proof.
  unfold Py.strip, Unicode.strip.
  by rewrite rstrip_code_points, lstrip_code_points.
Qed.

Lemma sub_around_code_points q (s : string) : ∀ pending after,
  code_points (ProcessDiv.sub_around q pending after s)
  = Unicode.sub_around q (code_points pending) after (code_points s).
Proof.
  induction s as [|c s IH]; intros pending after; [done|].
  cbn [ProcessDiv.sub_around code_points Unicode.sub_around].
  rewrite is_space_code_point.
  destruct (N_of_ascii c =? q)%N; [cbn [code_points]; by rewrite IH|].
  destruct (Py.is_space c).
  - destruct after; rewrite IH; [done|]. by rewrite code_points_app.
  - rewrite code_points_app. cbn [code_points]. by rewrite IH.
Qed.

(** On a string of code points below 256 the substitution around a
    character of a higher code point finds nothing to replace. *)
Lemma sub_around_absent q (s : string) : ∀ pending,
  (256 ≤ q)%N → ProcessDiv.sub_around q pending false s = pending +:+ s.
Proof.
  intros pending Hq. revert pending.
  induction s as [|c s IH]; intros pending.
  - simpl. by rewrite append_empty_r.
  - cbn [ProcessDiv.sub_around].
    pose proof (N_ascii_bounded c) as Hc.
    rewrite (proj2 (N.eqb_neq _ _)) by lia.
    destruct (Py.is_space c).
    + by rewrite IH, append_assoc.
    + by rewrite IH.
Qed.


Lemma process_div_text_code_points (l : Element) :
  code_points (ProcessDiv.line_text l)
  = Unicode.process_div_text (code_points (Py.join (ET.itertext l))).
Proof.
  unfold ProcessDiv.line_text, Unicode.process_div_text, Py.collapse_ws,
    Unicode.collapse_ws.
  by rewrite !sub_around_code_points, strip_code_points,
    collapse_ws_from_code_points.
Qed.


(** ** Apostrophes in the text of [process_div.py] *)

Lemma quotes_tight_cons is_q prev c s :
  quotes_tight is_q prev (c :: s)
  = negb (match prev with
          | Some p => (is_q p && Unicode.is_space c)
                      || (Unicode.is_space p && is_q c)
          | None => false
          end)
    && quotes_tight is_q (Some c) s.
Proof. done. Qed.

Lemma last_or_cons prev c s : last_or prev (c :: s) = last_or (Some c) s.
Proof.
  unfold last_or. destruct s as [|d s]; [done|].
  change (last (c :: d :: s)) with (last (d :: s)).
  destruct (last (d :: s)) eqn:Hlast; [done|]. by apply last_None in Hlast.
Qed.

Lemma last_or_snoc prev s c : last_or prev (s ++ [c]) = Some c.
Proof. unfold last_or. by rewrite last_snoc. Qed.

Lemma quotes_tight_app is_q s : ∀ prev t,
  quotes_tight is_q prev (s ++ t)
  = quotes_tight is_q prev s && quotes_tight is_q (last_or prev s) t.
Proof.
  induction s as [|c s IH]; intros prev t; [done|].
  rewrite <-app_comm_cons, !quotes_tight_cons, IH, last_or_cons.
  by rewrite andb_assoc.
Qed.

(** A character that is neither white space nor marked fits after any
    character that is no white space, and after any character at all
    when the marked characters are no white space. *)
Lemma fits_after_kept is_q (prev : option N) c :
  Unicode.is_space c = false →
  match prev with Some p => Unicode.is_space p = false | None => True end →
  negb (match prev with
        | Some p => (is_q p && Unicode.is_space c)
                    || (Unicode.is_space p && is_q c)
        | None => false
        end) = true.
Proof.
  intros Hc Hp. destruct prev as [p|]; [|done].
  by rewrite Hc, Hp, andb_false_r.
Qed.

(** White space read after a character other than [q] is tight for
    [q]. *)
Lemma tight_spaces q pending : ∀ prev,
  Unicode.is_space q = false →
  forallb Unicode.is_space pending = true →
  match prev with Some p => is_code_point q p = false | None => True end →
  quotes_tight (is_code_point q) prev pending = true.
Proof.
  intros prev Hq. revert prev.
  induction pending as [|x pending IH]; intros prev Hsp Hprev; [done|].
  cbn [forallb] in Hsp. apply andb_prop in Hsp as [Hx Hsp].
  assert (is_code_point q x = false) as Hxq.
  { unfold is_code_point. destruct (N.eqb_spec x q) as [->|]; [|done].
    congruence. }
  rewrite quotes_tight_cons, (IH (Some x) Hsp Hxq).
  destruct prev as [p|]; [|done]. by rewrite Hprev, Hxq, andb_false_r.
Qed.

(** The state of the substitution around [q]: the last character
    written is no white space, and it is [q] exactly when white space
    is being consumed after it. *)
Definition scan_state_ok (q : N) (pending : list N) (after : bool)
  (prev : option N) : Prop :=
  forallb Unicode.is_space pending = true
  ∧ match prev with
    | Some p => Unicode.is_space p = false ∧ is_code_point q p = after
    | None => after = false
    end
  ∧ (after = true → pending = []).

(** After the substitution around [q] no white space stands next to
    [q]. *)
Lemma sub_around_tight q s :
  Unicode.is_space q = false →
  ∀ pending after prev,
    scan_state_ok q pending after prev →
    quotes_tight (is_code_point q) prev (Unicode.sub_around q pending after s)
    = true.
Proof.
  intros Hq.
  induction s as [|c s IH]; intros pending after prev (Hsp & Hprev & Hafter).
  - simpl. destruct after.
    + by rewrite (Hafter eq_refl).
    + apply tight_spaces; [done..|]. by destruct prev as [p|]; [destruct Hprev|].
  - cbn [Unicode.sub_around].
    destruct (N.eqb_spec c q) as [->|Hc].
    + rewrite quotes_tight_cons, IH.
      * rewrite andb_true_r. apply fits_after_kept; [done|].
        by destruct prev as [p|]; [destruct Hprev|].
      * split_and!; try done.
        unfold is_code_point. by rewrite N.eqb_refl.
    + assert (is_code_point q c = false) as Hcq
        by (by apply N.eqb_neq).
      destruct (Unicode.is_space c) eqn:Hs.
      * destruct after.
        -- apply IH. split_and!; done.
        -- apply IH. split_and!; [|done..].
           rewrite forallb_app. cbn [forallb]. by rewrite Hsp, Hs.
      * rewrite quotes_tight_app, quotes_tight_cons, IH
          by (split_and!; done).
        rewrite andb_true_r.
        assert (quotes_tight (is_code_point q) prev pending = true) as ->.
        { destruct after; [by rewrite (Hafter eq_refl)|].
          apply tight_spaces; [done..|].
          by destruct prev as [p|]; [destruct Hprev|]. }
        cbn [andb].
        destruct (last_or prev pending) as [p|]; [|done].
        by rewrite Hs, Hcq, !andb_false_r.
Qed.

(** The state of the substitution around [q] with respect to other
    marked characters: [po] is the last character written, [pi] the
    last character read. *)
Definition scan_state_keeps (is_q : N → bool) (pending : list N)
  (after : bool) (po pi : option N) : Prop :=
  match po with Some p => Unicode.is_space p = false | None => True end
  ∧ (after = true → pending = [])
  ∧ (after = false →
     quotes_tight is_q po pending = true ∧ pi = last_or po pending).

(** The substitution around [q] brings no white space next to another
    character. *)
Lemma sub_around_keeps_tight q is_q s :
  Unicode.is_space q = false →
  ∀ pending after po pi,
    scan_state_keeps is_q pending after po pi →
    quotes_tight is_q pi s = true →
    quotes_tight is_q po (Unicode.sub_around q pending after s) = true.
Proof.
  intros Hq.
  induction s as [|c s IH]; intros pending after po pi (Hpo & Hafter & Hkeep).
  - intros _. simpl. destruct after.
    + by rewrite (Hafter eq_refl).
    + by destruct (Hkeep eq_refl).
  - rewrite quotes_tight_cons. intros [Hfit Hrest]%andb_prop.
    cbn [Unicode.sub_around].
    destruct (N.eqb_spec c q) as [->|Hc].
    + rewrite quotes_tight_cons, (IH [] true (Some q) (Some q));
        [|by split_and!|done].
      rewrite andb_true_r. by apply fits_after_kept.
    + destruct (Unicode.is_space c) eqn:Hs.
      * destruct after.
        -- apply (IH [] true po (Some c)); [by split_and!|done].
        -- destruct (Hkeep eq_refl) as [Hpend ->].
           apply (IH (pending ++ [c]) false po (Some c)); [|done].
           split_and!; [done..|]. intros _.
           split; [|by rewrite last_or_snoc].
           by rewrite quotes_tight_app, Hpend, quotes_tight_cons, Hs, Hfit.
      * rewrite quotes_tight_app, quotes_tight_cons,
          (IH [] false (Some c) (Some c)); [|by split_and!|done].
        rewrite andb_true_r. destruct after.
        -- rewrite (Hafter eq_refl). cbn [quotes_tight andb].
           by apply fits_after_kept.
        -- destruct (Hkeep eq_refl) as [-> ->]. by rewrite Hs, Hfit.
Qed.

Lemma quotes_tight_or f g s : ∀ prev,
  quotes_tight (λ n, f n || g n) prev s
  = quotes_tight f prev s && quotes_tight g prev s.
Proof.
  induction s as [|c s IH]; intros prev; [done|].
  rewrite !quotes_tight_cons, IH.
  destruct prev as [p|]; cbn [negb andb]; [|done].
  destruct (f p), (g p), (f c), (g c), (Unicode.is_space p),
    (Unicode.is_space c), (quotes_tight f (Some c) s),
    (quotes_tight g (Some c) s); reflexivity.
Qed.

Lemma apostrophes_tight_code_points (s : string) : ∀ prev,
  apostrophes_tight prev s
  = quotes_tight (is_code_point ProcessDiv.APOSTROPHE) (N_of_ascii <$> prev)
      (code_points s).
Proof.
  induction s as [|c s IH]; intros prev; [done|].
  cbn [apostrophes_tight code_points].
  rewrite quotes_tight_cons, IH. f_equal.
  destruct prev as [p|]; [|done]. simpl.
  by rewrite !is_space_code_point, !is_apostrophe_code_point.
Qed.

(** X18: in the text [process_div.py] stores for a line, no white
    space stands next to an apostrophe. *)
Theorem process_div_text_apostrophes (l : Element) :
  apostrophes_tight None (ProcessDiv.line_text l) = true.
Proof.
  rewrite apostrophes_tight_code_points.
  rewrite process_div_text_code_points.
  apply sub_around_tight; [done|]. split_and!; done.
Qed.

Example apostrophe_line_text :
  ProcessDiv.line_text apostrophe_line = "qu'il l'a".
Proof. reflexivity. Qed.

(** X20: whatever the code points of the joined text nodes of a line,
    in the text [process_div.py] stores no white space stands next to
    an apostrophe or to a typographic apostrophe. *)
Theorem process_div_text_quotes_tight (joined : list N) :
  quotes_tight is_quote None (Unicode.process_div_text joined) = true.
Proof.
  unfold is_quote, Unicode.process_div_text.
  rewrite quotes_tight_or. apply andb_true_intro. split.
  - apply sub_around_tight; [done|]. split_and!; done.
  - apply (sub_around_keeps_tight ProcessDiv.APOSTROPHE
             (is_code_point ProcessDiv.TYPOGRAPHIC_APOSTROPHE) _ eq_refl
             [] false None None).
    + split_and!; done.
    + apply sub_around_tight; [done|]. split_and!; done.
Qed.

Example spaced_quotes_removed :
  Unicode.process_div_text spaced_quotes_text
  = [108; 8217; 97; 39; 98]%N.
Proof. reflexivity. Qed.
